(** * Authentication core of the DrYouu web application

    A shallow embedding of the three authentication classes of the site,
    [AuthManager] (src/js/auth/auth-manager.js), [OAuth2Auth] and
    [WebAuthnAuth], together with the properties their design document
    states about them.

    - JavaScript strings are sequences of UTF-16 code units ([list Z]).
    - [Uint8Array]s and [ArrayBuffer]s are [list byte].
    - JavaScript numbers that occur here are integer millisecond
      timestamps and counters; they are modelled as [Z].
    - The browser globals the code touches ([localStorage],
      [window.location.href], the console) and the mutable fields of the
      singleton class instances live in one [state] record, threaded
      through a state-and-exception monad [M].
    - Built-ins whose result the code cannot influence (JSON, coercions,
      the SHA-256 digest, the capability probe) are fields of a
      [Platform] record; randomness, the clock and the authenticator's
      answers are arguments of the operation that asks for them. *)

From Stdlib Require Import ZArith List Lia String Ascii.
From Stdlib Require Import Strings.Byte.
From stdpp Require Import base option list gmap.

Set Warnings "-register-all".
Open Scope Z_scope.

(** ** JavaScript strings and values *)

Abbreviation jsstring := (list Z).

(** A string literal of the source, as code units. *)
Definition js (s : string) : jsstring :=
  map (fun a => Z.of_N (N_of_ascii a)) (list_ascii_of_string s).

Definition byte_to_Z (b : byte) : Z := Z.of_N (Byte.to_N b).

(** Storing a number into a [Uint8Array] slot keeps its low eight bits. *)
Definition byte_of_Z (z : Z) : byte :=
  match Byte.of_N (Z.to_N (z mod 256)) with
  | Some b => b
  | None => x00
  end.

(** The values [JSON.parse] can produce, and [undefined]. *)
Inductive jsval :=
| Undefined
| Null
| Bool (b : bool)
| Num (n : Z)
| Str (s : jsstring)
| Arr (l : list jsval)
| Obj (fields : list (jsstring * jsval)).

(** What the code throws: [new Error(message)], or an exception raised by
    the language or the browser. *)
Inductive exn :=
| Error (message : jsstring)
| TypeError
| SyntaxError
| DOMException (name : jsstring).

(** Truthiness, as used by [!x], [x || y] and [if (x)]. *)
Definition truthy (v : jsval) : bool :=
  match v with
  | Undefined | Null => false
  | Bool b => b
  | Num n => negb (n =? 0)
  | Str s => match s with [] => false | _ => true end
  | Arr _ | Obj _ => true
  end.

Fixpoint assoc (k : jsstring) (fields : list (jsstring * jsval)) : jsval :=
  match fields with
  | [] => Undefined
  | (k', v) :: rest =>
      match assoc k rest with
      | Undefined => if decide (k = k') then v else Undefined
      | later => later
      end
  end.

(** Property read [v.k] for the property names the code uses ([length] and
    plain data fields): reading from [null] or [undefined] throws. *)
Definition get_prop (v : jsval) (k : jsstring) : exn + jsval :=
  match v with
  | Undefined | Null => inl TypeError
  | Obj fields => inr (assoc k fields)
  | Arr l => inr (if decide (k = js "length") then Num (Z.of_nat (length l)) else Undefined)
  | Str s => inr (if decide (k = js "length") then Num (Z.of_nat (length s)) else Undefined)
  | Bool _ | Num _ => inr Undefined
  end.

(** [v || default] for an optional string, number or boolean: the empty
    string, zero, [false] and [undefined] all select the default. *)
Definition or_str (v : option jsstring) (default : jsstring) : jsstring :=
  match v with
  | Some (c :: s) => c :: s
  | _ => default
  end.

Definition or_num (v : option Z) (default : Z) : Z :=
  match v with
  | Some n => if n =? 0 then default else n
  | None => default
  end.

Definition or_bool (v : option bool) (default : bool) : bool :=
  match v with
  | Some true => true
  | _ => default
  end.

(** [if (s)] on a string that may be [null]: the string when it is truthy. *)
Definition present (v : option jsstring) : option jsstring :=
  match v with
  | Some (c :: s) => Some (c :: s)
  | _ => None
  end.

(** Strict equality [v === s] against a string. *)
Definition strict_eq_str (v : jsval) (s : jsstring) : bool :=
  match v with
  | Str s' => bool_decide (s' = s)
  | _ => false
  end.

(** ** The platform *)

Record Platform := {
  JSON_parse : jsstring -> option jsval;      (* [None]: throws SyntaxError *)
  JSON_stringify : jsval -> jsstring;
  ToNumber : jsval -> option Z;               (* [None]: NaN *)
  ToString : jsval -> jsstring;
  digest_SHA256 : list byte -> list byte;     (* crypto.subtle.digest *)
  URLSearchParams_toString : list (jsstring * jsstring) -> jsstring;
  webauthn_present : bool                     (* the four probes of isSupported *)
}.

(** [v < now] where [now] is a number. A comparison with NaN is false. *)
Definition js_lt_num (P : Platform) (v : jsval) (now : Z) : bool :=
  match v with
  | Num e => e <? now
  | Undefined => false
  | other => match ToNumber P other with Some e => e <? now | None => false end
  end.

(** ** Mutable state *)

(** An entry of [AuthManager.rateLimiter]. *)
Record attempts := { count : Z; timestamp : Z }.

Inductive console_entry :=
| console_warn (what : jsstring)
| console_error (what : jsstring) (err : exn).

Record PublicKeyCredentialCreationOptions := {
  co_challenge : list byte;
  co_rp_name : jsstring;
  co_rp_id : jsstring;
  co_user_id : list byte;
  co_user_name : jsstring;
  co_user_displayName : jsstring;
  co_pubKeyCredParams : list (Z * jsstring);
  co_authenticatorAttachment : jsstring;
  co_requireResidentKey : bool;
  co_userVerification : jsstring;
  co_timeout : Z;
  co_attestation : jsstring
}.

Record PublicKeyCredentialRequestOptions := {
  ro_challenge : list byte;
  ro_rpId : jsstring;
  ro_allowCredentials : list (list byte * jsstring * list jsstring);
  ro_timeout : Z;
  ro_userVerification : jsstring
}.

(** Calls into the browser that consume entropy or start a ceremony, with
    the options object they are given. *)
Inductive platform_call :=
| call_getRandomValues (len : nat)
| call_credentials_get (publicKey : PublicKeyCredentialRequestOptions)
| call_credentials_create (publicKey : PublicKeyCredentialCreationOptions).

Record state := {
  localStorage : gmap jsstring jsstring;
  location_href : jsstring;
  console : list console_entry;
  calls : list platform_call;
  rateLimiter : gmap jsstring attempts;     (* AuthManager.rateLimiter *)
  currentProvider : option jsstring         (* OAuth2Auth.currentProvider *)
}.

Definition with_localStorage (f : gmap jsstring jsstring -> gmap jsstring jsstring) (w : state) : state :=
  {| localStorage := f (localStorage w); location_href := location_href w;
     console := console w; calls := calls w;
     rateLimiter := rateLimiter w; currentProvider := currentProvider w |}.

Definition with_href (h : jsstring) (w : state) : state :=
  {| localStorage := localStorage w; location_href := h;
     console := console w; calls := calls w;
     rateLimiter := rateLimiter w; currentProvider := currentProvider w |}.

Definition with_console (e : console_entry) (w : state) : state :=
  {| localStorage := localStorage w; location_href := location_href w;
     console := console w ++ [e]; calls := calls w;
     rateLimiter := rateLimiter w; currentProvider := currentProvider w |}.

Definition with_call (c : platform_call) (w : state) : state :=
  {| localStorage := localStorage w; location_href := location_href w;
     console := console w; calls := calls w ++ [c];
     rateLimiter := rateLimiter w; currentProvider := currentProvider w |}.

Definition with_rateLimiter (f : gmap jsstring attempts -> gmap jsstring attempts) (w : state) : state :=
  {| localStorage := localStorage w; location_href := location_href w;
     console := console w; calls := calls w;
     rateLimiter := f (rateLimiter w); currentProvider := currentProvider w |}.

Definition with_currentProvider (p : option jsstring) (w : state) : state :=
  {| localStorage := localStorage w; location_href := location_href w;
     console := console w; calls := calls w;
     rateLimiter := rateLimiter w; currentProvider := p |}.

(** ** The monad: state that survives a throw *)

Definition M (A : Type) : Type := state -> (exn + A) * state.

Definition ret {A} (a : A) : M A := fun w => (inr a, w).
Definition throw {A} (e : exn) : M A := fun w => (inl e, w).
Definition bind {A B} (m : M A) (k : A -> M B) : M B :=
  fun w => match m w with
           | (inr a, w') => k a w'
           | (inl e, w') => (inl e, w')
           end.
Definition try_catch {A} (body : M A) (handler : exn -> M A) : M A :=
  fun w => match body w with
           | (inl e, w') => handler e w'
           | r => r
           end.
Definition modify (f : state -> state) : M unit := fun w => (inr tt, f w).
Definition gets {A} (f : state -> A) : M A := fun w => (inr (f w), w).
Definition lift {A} (r : exn + A) : M A := fun w => (r, w).

Declare Scope js_scope.
Delimit Scope js_scope with js.
Notation "'let!' x ':=' m 'in' k" := (bind m (fun x => k))
  (at level 10, x name, m at level 100, k at level 200) : js_scope.
Notation "m ';;' k" := (bind m (fun _ => k))
  (at level 100, k at level 200, right associativity, only parsing) : js_scope.
Open Scope js_scope.

Definition localStorage_getItem (k : jsstring) : M (option jsstring) :=
  gets (fun w => localStorage w !! k).
Definition localStorage_setItem (k v : jsstring) : M unit :=
  modify (with_localStorage (insert k v)).
Definition localStorage_removeItem (k : jsstring) : M unit :=
  modify (with_localStorage (delete k)).
Definition set_location_href (h : jsstring) : M unit := modify (with_href h).
Definition log (e : console_entry) : M unit := modify (with_console e).
Definition record_call (c : platform_call) : M unit := modify (with_call c).

(** [crypto.getRandomValues(new Uint8Array(n))]: [rnd] is the entropy the
    browser delivers to this call. *)
Definition getRandomValues (rnd : nat -> byte) (n : nat) : M (list byte) :=
  record_call (call_getRandomValues n) ;; ret (map rnd (seq 0 n)).

(** ** Text and binary encodings *)

Module Encoding.

(** *** base64 ([btoa] and [atob]) *)

Definition b64_char (i : Z) : Z :=
  if i <? 26 then 65 + i          (* A-Z *)
  else if i <? 52 then 71 + i     (* a-z *)
  else if i <? 62 then i - 4      (* 0-9 *)
  else if i =? 62 then 43         (* + *)
  else 47.                        (* / *)

Definition b64_index (c : Z) : option Z :=
  if (65 <=? c) && (c <=? 90) then Some (c - 65)
  else if (97 <=? c) && (c <=? 122) then Some (c - 71)
  else if (48 <=? c) && (c <=? 57) then Some (c + 4)
  else if c =? 43 then Some 62
  else if c =? 47 then Some 63
  else None.

Definition pad : Z := 61.           (* = *)

Fixpoint b64_encode (s : jsstring) : jsstring :=
  match s with
  | [] => []
  | [a] => [b64_char (a / 4); b64_char ((a mod 4) * 16); pad; pad]
  | [a; b] =>
      [b64_char (a / 4); b64_char ((a mod 4) * 16 + b / 16);
       b64_char ((b mod 16) * 4); pad]
  | a :: b :: c :: rest =>
      b64_char (a / 4) :: b64_char ((a mod 4) * 16 + b / 16)
      :: b64_char ((b mod 16) * 4 + c / 64) :: b64_char (c mod 64)
      :: b64_encode rest
  end.

Definition InvalidCharacterError : exn := DOMException (js "InvalidCharacterError").

(** [btoa(s)]: throws when [s] is not a binary string. *)
Definition btoa (s : jsstring) : exn + jsstring :=
  if forallb (fun c => (0 <=? c) && (c <=? 255)) s
  then inr (b64_encode s)
  else inl InvalidCharacterError.

Definition ascii_whitespace (c : Z) : bool :=
  (c =? 9) || (c =? 10) || (c =? 12) || (c =? 13) || (c =? 32).

(** Remove one or two trailing [=]. *)
Definition strip_padding (d : jsstring) : jsstring :=
  match rev d with
  | a :: r =>
      if a =? pad then
        match r with
        | b :: r' => if b =? pad then rev r' else rev r
        | [] => []
        end
      else d
  | [] => d
  end.

Fixpoint sextets_of (d : jsstring) : option (list Z) :=
  match d with
  | [] => Some []
  | c :: rest =>
      match b64_index c, sextets_of rest with
      | Some i, Some l => Some (i :: l)
      | _, _ => None
      end
  end.

Fixpoint b64_decode (l : list Z) : jsstring :=
  match l with
  | s1 :: s2 :: s3 :: s4 :: rest =>
      (s1 * 4 + s2 / 16) :: ((s2 mod 16) * 16 + s3 / 4)
      :: ((s3 mod 4) * 64 + s4) :: b64_decode rest
  | [s1; s2; s3] => [s1 * 4 + s2 / 16; (s2 mod 16) * 16 + s3 / 4]
  | [s1; s2] => [s1 * 4 + s2 / 16]
  | _ => []
  end.

(** [atob(data)], the forgiving-base64 decode of the HTML standard. *)
Definition atob (data : jsstring) : exn + jsstring :=
  let d1 := List.filter (fun c => negb (ascii_whitespace c)) data in
  let d2 := if Z.of_nat (length d1) mod 4 =? 0 then strip_padding d1 else d1 in
  if Z.of_nat (length d2) mod 4 =? 1 then inl InvalidCharacterError
  else match sextets_of d2 with
       | Some l => inr (b64_decode l)
       | None => inl InvalidCharacterError
       end.

(** *** [TextEncoder.encode]: UTF-8 of a UTF-16 string *)

Definition replacement : list byte := [xef; xbf; xbd].   (* U+FFFD *)

Definition is_high_surrogate (c : Z) : bool := (0xD800 <=? c) && (c <? 0xDC00).
Definition is_low_surrogate (c : Z) : bool := (0xDC00 <=? c) && (c <? 0xE000).

Definition utf8_3 (c : Z) : list byte :=
  [byte_of_Z (0xE0 + c / 4096); byte_of_Z (0x80 + (c / 64) mod 64);
   byte_of_Z (0x80 + c mod 64)].

Definition utf8_4 (cp : Z) : list byte :=
  [byte_of_Z (0xF0 + cp / 262144); byte_of_Z (0x80 + (cp / 4096) mod 64);
   byte_of_Z (0x80 + (cp / 64) mod 64); byte_of_Z (0x80 + cp mod 64)].

Fixpoint TextEncoder_encode (s : jsstring) : list byte :=
  match s with
  | [] => []
  | c :: rest =>
      if c <? 0x80 then byte_of_Z c :: TextEncoder_encode rest
      else if c <? 0x800 then
        byte_of_Z (0xC0 + c / 64) :: byte_of_Z (0x80 + c mod 64)
        :: TextEncoder_encode rest
      else if is_high_surrogate c then
        match rest with
        | d :: rest' =>
            if is_low_surrogate d
            then utf8_4 (0x10000 + (c - 0xD800) * 0x400 + (d - 0xDC00))
                 ++ TextEncoder_encode rest'
            else replacement ++ TextEncoder_encode rest
        | [] => replacement
        end
      else if is_low_surrogate c then replacement ++ TextEncoder_encode rest
      else utf8_3 c ++ TextEncoder_encode rest
  end.

(** *** Hexadecimal *)

Definition hex_digit (d : Z) : Z := if d <? 10 then 48 + d else 87 + d.

(** [byte.toString(16)] for a byte. *)
Definition toString16 (b : byte) : jsstring :=
  let n := byte_to_Z b in
  if n <? 16 then [hex_digit n] else [hex_digit (n / 16); hex_digit (n mod 16)].

(** [s.padStart(n, '0')]. *)
Definition padStart0 (n : nat) (s : jsstring) : jsstring :=
  repeat 48 (n - length s) ++ s.

(** [Array.from(array, byte => byte.toString(16).padStart(2, '0')).join('')]. *)
Definition hex_of_bytes (array : list byte) : jsstring :=
  concat (map (fun b => padStart0 2 (toString16 b)) array).

(** [String.fromCharCode(...bytes)]. *)
Definition fromCharCodes (bytes : list byte) : jsstring := map byte_to_Z bytes.

(** [s.replace(/c/g, r)] for a one-character pattern. *)
Definition replace_all (c : Z) (r : jsstring) (s : jsstring) : jsstring :=
  concat (map (fun x => if x =? c then r else [x]) s).

End Encoding.

(** ** WebAuthnAuth *)

Module WebAuthn.
Import Encoding.

Record Config := {
  cfg_rpName : option jsstring;
  cfg_rpId : option jsstring;
  authenticatorAttachment : option jsstring;
  requireResidentKey : option bool;
  userVerification : option jsstring;
  timeout : option Z;
  attestation : option jsstring
}.

(** The instance fields. [config] is [None] until [init] has run. *)
Record WebAuthnAuth := {
  rpName : jsstring;
  rpId : jsstring;
  config : option Config
}.

(** [this.config?.field] *)
Definition cfg {A} (self : WebAuthnAuth) (f : Config -> option A) : option A :=
  match config self with
  | Some c => f c
  | None => None
  end.

Definition constructor (hostname : jsstring) : WebAuthnAuth :=
  {| rpName := js "DrYouu Research Lab"; rpId := hostname; config := None |}.

(** What [navigator.credentials.create] resolves to. *)
Record AttestationCredential := {
  ac_id : jsstring;
  ac_rawId : list byte;
  ac_type : jsstring;
  ac_clientDataJSON : list byte;
  ac_attestationObject : list byte
}.

(** What [navigator.credentials.get] resolves to. *)
Record AssertionCredential := {
  as_id : jsstring;
  as_rawId : list byte;
  as_type : jsstring;
  as_authenticatorData : list byte;
  as_clientDataJSON : list byte;
  as_signature : list byte;
  as_userHandle : option (list byte)
}.

Record AuthenticationResult := {
  ar_success : bool;
  ar_credential : jsval;
  ar_username : jsval
}.

(** The errors [register] and [authenticate] throw themselves. The source
    throws plain [Error]s; the second is the design document's
    [NoCredentialsError]. *)
Definition NotSupported : exn := Error (js "WebAuthn is not supported").
Definition NoCredentialsError : exn :=
  Error (js "No credentials registered. Please register first.").

Definition credentials_key : jsstring := js "webauthn_credentials".

Section WithPlatform.
Context (P : Platform).

Definition isSupported : bool := webauthn_present P.

Definition init (self : WebAuthnAuth) (c : Config) : M (WebAuthnAuth * bool) :=
  let self' := {| rpName := or_str (cfg_rpName c) (rpName self);
                  rpId := or_str (cfg_rpId c) (rpId self);
                  config := Some c |} in
  if negb isSupported
  then log (console_warn (js "WebAuthn is not supported in this browser")) ;;
       ret (self', false)
  else ret (self', true).

Definition generateChallenge (rnd : nat -> byte) : M (list byte) :=
  getRandomValues rnd 32.

Definition generateUserId (username : jsstring) : list byte :=
  TextEncoder_encode username.

Definition arrayBufferToBase64 (buffer : list byte) : exn + jsstring :=
  let bytes := buffer in
  let binary := fold_left (fun binary b => binary ++ [byte_to_Z b]) bytes [] in
  btoa binary.

Definition base64ToArrayBuffer (base64 : jsstring) : exn + list byte :=
  match atob base64 with
  | inl e => inl e
  | inr binary => inr (map byte_of_Z binary)
  end.

Definition parse (text : jsstring) : M jsval :=
  match JSON_parse P text with
  | Some v => ret v
  | None => throw SyntaxError
  end.

(** [localStorage.getItem(key) || '[]'] *)
Definition stored_text (item : option jsstring) : jsstring :=
  match item with
  | Some (c :: s) => c :: s
  | _ => js "[]"
  end.

Definition getStoredCredentials : M jsval :=
  let! item := localStorage_getItem credentials_key in
  parse (stored_text item).

(** [stored.push(x)] on whatever [JSON.parse] returned. *)
Definition push (stored : jsval) (x : jsval) : exn + jsval :=
  match stored with
  | Arr l => inr (Arr (l ++ [x]))
  | _ => inl TypeError
  end.

Definition storeCredential (now : Z) (username : jsstring) (credential : list (jsstring * jsval)) : M unit :=
  let! item := localStorage_getItem credentials_key in
  let! stored := parse (stored_text item) in
  let! stored' := lift (push stored
      (Obj ((js "username", Str username) :: credential ++ [(js "createdAt", Num now)]))) in
  localStorage_setItem credentials_key (JSON_stringify P stored').

Definition creationOptions (self : WebAuthnAuth) (challenge userId : list byte) (username : jsstring)
  : PublicKeyCredentialCreationOptions :=
  {| co_challenge := challenge;
     co_rp_name := rpName self;
     co_rp_id := rpId self;
     co_user_id := userId;
     co_user_name := username;
     co_user_displayName := username;
     co_pubKeyCredParams := [(-7, js "public-key"); (-257, js "public-key")];
     co_authenticatorAttachment := or_str (cfg self authenticatorAttachment) (js "platform");
     co_requireResidentKey := or_bool (cfg self requireResidentKey) false;
     co_userVerification := or_str (cfg self userVerification) (js "preferred");
     co_timeout := or_num (cfg self timeout) 60000;
     co_attestation := or_str (cfg self attestation) (js "none") |}.

(** [register(username)]. [create] is the authenticator's answer to the
    options it is shown. *)
Definition register (self : WebAuthnAuth) (rnd : nat -> byte)
    (create : PublicKeyCredentialCreationOptions -> exn + AttestationCredential)
    (now : Z) (username : jsstring)
  : M (list (jsstring * jsval)) :=
  if negb isSupported then throw NotSupported else
  try_catch
    (let! challenge := generateChallenge rnd in
     let userId := generateUserId username in
     let publicKeyCredentialCreationOptions := creationOptions self challenge userId username in
     record_call (call_credentials_create publicKeyCredentialCreationOptions) ;;
     let! credential := lift (create publicKeyCredentialCreationOptions) in
     let! rawId := lift (arrayBufferToBase64 (ac_rawId credential)) in
     let! clientDataJSON := lift (arrayBufferToBase64 (ac_clientDataJSON credential)) in
     let! attestationObject := lift (arrayBufferToBase64 (ac_attestationObject credential)) in
     let credentialData :=
       [(js "id", Str (ac_id credential));
        (js "rawId", Str rawId);
        (js "type", Str (ac_type credential));
        (js "response", Obj [(js "clientDataJSON", Str clientDataJSON);
                             (js "attestationObject", Str attestationObject)])] in
     storeCredential now username credentialData ;;
     ret credentialData)
    (fun error =>
       log (console_error (js "WebAuthn registration error:") error) ;;
       throw error).

(** The argument of [atob] is converted to a string first. *)
Definition as_string (v : jsval) : jsstring :=
  match v with
  | Str s => s
  | other => ToString P other
  end.

(** [cred => ({ id: this.base64ToArrayBuffer(cred.rawId), ... })] *)
Definition allowCredential (cred : jsval) : exn + (list byte * jsstring * list jsstring) :=
  match get_prop cred (js "rawId") with
  | inl e => inl e
  | inr rawId =>
      match base64ToArrayBuffer (as_string rawId) with
      | inl e => inl e
      | inr id => inr (id, js "public-key", [js "internal"; js "usb"; js "nfc"; js "ble"])
      end
  end.

Fixpoint map_throwing {A B} (f : A -> exn + B) (l : list A) : exn + list B :=
  match l with
  | [] => inr []
  | x :: rest =>
      match f x with
      | inl e => inl e
      | inr y => match map_throwing f rest with
                 | inl e => inl e
                 | inr ys => inr (y :: ys)
                 end
      end
  end.

(** [storedCredentials.map(...)]: only arrays have a [map]. *)
Definition allowCredentials (storedCredentials : jsval) :=
  match storedCredentials with
  | Arr l => map_throwing allowCredential l
  | _ => inl TypeError
  end.

(** [storedCredentials.find(cred => cred.id === id)] *)
Fixpoint find_by_id (l : list jsval) (id : jsstring) : exn + option jsval :=
  match l with
  | [] => inr None
  | cred :: rest =>
      match get_prop cred (js "id") with
      | inl e => inl e
      | inr v => if strict_eq_str v id then inr (Some cred) else find_by_id rest id
      end
  end.

Definition find_credential (storedCredentials : jsval) (id : jsstring) : exn + option jsval :=
  match storedCredentials with
  | Arr l => find_by_id l id
  | _ => inl TypeError
  end.

(** [matchedCredential?.username || 'unknown'] *)
Definition username_of (matched : option jsval) : exn + jsval :=
  match matched with
  | None => inr (Str (js "unknown"))
  | Some cred =>
      match get_prop cred (js "username") with
      | inl e => inl e
      | inr u => inr (if truthy u then u else Str (js "unknown"))
      end
  end.

Definition is_zero (v : jsval) : bool :=
  match v with
  | Num 0 => true
  | _ => false
  end.

(** [authenticate()]. [get] is the authenticator's answer to the request. *)
Definition authenticate (self : WebAuthnAuth) (rnd : nat -> byte)
    (get : PublicKeyCredentialRequestOptions -> exn + AssertionCredential)
  : M AuthenticationResult :=
  if negb isSupported then throw NotSupported else
  try_catch
    (let! storedCredentials := getStoredCredentials in
     let! len := lift (get_prop storedCredentials (js "length")) in
     if is_zero len then throw NoCredentialsError else
     let! challenge := generateChallenge rnd in
     let! allow := lift (allowCredentials storedCredentials) in
     let publicKeyCredentialRequestOptions :=
       {| ro_challenge := challenge;
          ro_rpId := rpId self;
          ro_allowCredentials := allow;
          ro_timeout := or_num (cfg self timeout) 60000;
          ro_userVerification := or_str (cfg self userVerification) (js "preferred") |} in
     record_call (call_credentials_get publicKeyCredentialRequestOptions) ;;
     let! assertion := lift (get publicKeyCredentialRequestOptions) in
     let! rawId := lift (arrayBufferToBase64 (as_rawId assertion)) in
     let! authenticatorData := lift (arrayBufferToBase64 (as_authenticatorData assertion)) in
     let! clientDataJSON := lift (arrayBufferToBase64 (as_clientDataJSON assertion)) in
     let! signature := lift (arrayBufferToBase64 (as_signature assertion)) in
     let! userHandle :=
       match as_userHandle assertion with
       | Some h => let! s := lift (arrayBufferToBase64 h) in ret (Str s)
       | None => ret Null
       end in
     let result :=
       Obj [(js "id", Str (as_id assertion));
            (js "rawId", Str rawId);
            (js "type", Str (as_type assertion));
            (js "response", Obj [(js "authenticatorData", Str authenticatorData);
                                 (js "clientDataJSON", Str clientDataJSON);
                                 (js "signature", Str signature);
                                 (js "userHandle", userHandle)])] in
     let! matchedCredential := lift (find_credential storedCredentials (as_id assertion)) in
     let! username := lift (username_of matchedCredential) in
     ret {| ar_success := true; ar_credential := result; ar_username := username |})
    (fun error =>
       log (console_error (js "WebAuthn authentication error:") error) ;;
       throw error).

(** [isPlatformAuthenticatorAvailable()]. [probe] is what
    [PublicKeyCredential.isUserVerifyingPlatformAuthenticatorAvailable()]
    settles to. *)
Definition isPlatformAuthenticatorAvailable (probe : exn + bool) : M bool :=
  if negb isSupported then ret false else
  try_catch
    (lift probe)
    (fun error =>
       log (console_error (js "Error checking platform authenticator:") error) ;;
       ret false).

Definition clearCredentials : M unit := localStorage_removeItem credentials_key.

End WithPlatform.
End WebAuthn.

(** ** OAuth2Auth *)

Module OAuth2.
Import Encoding.

(** A value of the [providers] map, as [registerProvider] builds it. *)
Record Provider := {
  name : jsstring;
  clientId : jsstring;
  authUrl : jsstring;
  tokenUrl : jsstring;
  scope : jsstring;
  redirectUri : jsstring;
  responseMode : option jsstring;
  icon : jsstring
}.

(** The instance fields that do not change after [init];
    [currentProvider] is in [state]. *)
Record OAuth2Auth := {
  providers : gmap jsstring Provider;
  callbackUrl : jsstring
}.

Record TokenData := {
  access_token : jsstring;
  token_type : jsstring;
  expires_in : Z;
  token_scope : jsstring
}.

Record UserInfo := {
  ui_id : jsstring;
  ui_email : jsstring;
  ui_name : jsstring;
  ui_provider : jsstring;
  ui_verified : bool
}.

Record CallbackResult := {
  cb_success : bool;
  cb_provider : jsstring;
  cb_user : UserInfo;
  cb_tokens : TokenData
}.

Record PKCE := { codeVerifier : jsstring; codeChallenge : jsstring }.

Definition state_key : jsstring := js "oauth2_state".
Definition verifier_key : jsstring := js "oauth2_code_verifier".
Definition provider_key : jsstring := js "oauth2_provider".

(** The errors of the flow, named after the design document where it has a
    name for them; the source throws plain [Error]s with these messages. *)
Definition ProviderNotFound (providerName : jsstring) : exn :=
  Error (js "Provider " ++ providerName ++ js " not found").
Definition CallbackProviderNotFound : exn := Error (js "Provider not found").
Definition CsrfMismatchError : exn :=
  Error (js "Invalid state parameter - possible CSRF attack").

(** [`OAuth2 error: ${error} - ${params.get('error_description')}`] *)
Definition ProviderError (error : jsstring) (description : option jsstring) : exn :=
  Error (js "OAuth2 error: " ++ error ++ js " - "
         ++ match description with Some d => d | None => js "null" end).

(** The message starts with U+26A0 U+FE0F (a warning sign). *)
Definition exchange_warning : jsstring :=
  [0x26A0; 0xFE0F] ++ js " Token exchange should be done on the server in production!".

Section WithPlatform.
Context (P : Platform).

Definition storeState (st : jsstring) : M unit := localStorage_setItem state_key st.
Definition getStoredState : M (option jsstring) := localStorage_getItem state_key.
Definition clearStoredState : M unit := localStorage_removeItem state_key.
Definition storeCodeVerifier (verifier : jsstring) : M unit :=
  localStorage_setItem verifier_key verifier.
Definition clearCodeVerifier : M unit := localStorage_removeItem verifier_key.

Definition generateState (rnd : nat -> byte) : M jsstring :=
  let! array := getRandomValues rnd 32 in
  ret (hex_of_bytes array).

Definition generatePKCE (rnd : nat -> byte) : M PKCE :=
  let! array := getRandomValues rnd 32 in
  let codeVerifier := hex_of_bytes array in
  let data := TextEncoder_encode codeVerifier in
  let hash := digest_SHA256 P data in
  let! b64 := lift (btoa (fromCharCodes hash)) in
  let codeChallenge :=
    replace_all 61 [] (replace_all 47 (js "_") (replace_all 43 (js "-") b64)) in
  ret {| codeVerifier := codeVerifier; codeChallenge := codeChallenge |}.

Definition buildAuthUrl (provider : Provider) (st codeChallenge : jsstring) : jsstring :=
  let params :=
    [(js "client_id", clientId provider);
     (js "redirect_uri", redirectUri provider);
     (js "response_type", js "code");
     (js "scope", scope provider);
     (js "state", st);
     (js "code_challenge", codeChallenge);
     (js "code_challenge_method", js "S256")] in
  let params :=
    match responseMode provider with
    | Some (c :: m) => params ++ [(js "response_mode", c :: m)]
    | _ => params
    end in
  authUrl provider ++ js "?" ++ URLSearchParams_toString P params.

(** [authenticate(providerName)]: [rnd_state] and [rnd_pkce] are the
    entropy of the two [getRandomValues] calls. *)
Definition authenticate (self : OAuth2Auth) (rnd_state rnd_pkce : nat -> byte)
    (providerName : jsstring) : M unit :=
  match providers self !! providerName with
  | None => throw (ProviderNotFound providerName)
  | Some provider =>
      modify (with_currentProvider (Some providerName)) ;;
      let! st := generateState rnd_state in
      storeState st ;;
      let! pkce := generatePKCE rnd_pkce in
      storeCodeVerifier (codeVerifier pkce) ;;
      let authUrl := buildAuthUrl provider st (codeChallenge pkce) in
      localStorage_setItem provider_key providerName ;;
      set_location_href authUrl
  end.

Definition exchangeCodeForToken (now : Z) (provider : Provider) (code : option jsstring)
  : M TokenData :=
  log (console_warn exchange_warning) ;;
  ret {| access_token := js "demo_access_token_" ++ ToString P (Num now);
         token_type := js "Bearer";
         expires_in := 3600;
         token_scope := scope provider |}.

Definition getUserInfo (providerName : jsstring) (accessToken : jsstring) : M UserInfo :=
  ret {| ui_id := js "demo_user_id";
         ui_email := js "user@example.com";
         ui_name := js "Demo User";
         ui_provider := providerName;
         ui_verified := true |}.

(** [handleCallback()]: [params] is [URLSearchParams.get] on the query
    string of the callback page. *)
Definition handleCallback (self : OAuth2Auth) (params : jsstring -> option jsstring)
    (now : Z) : M CallbackResult :=
  let code := params (js "code") in
  let st := params (js "state") in
  let error := params (js "error") in
  match present error with
  | Some e => throw (ProviderError e (params (js "error_description")))
  | None =>
      let! storedState := getStoredState in
      if negb (bool_decide (st = storedState)) then throw CsrfMismatchError else
      let! providerName := localStorage_getItem provider_key in
      match providerName with
      | None => throw CallbackProviderNotFound
      | Some providerName =>
          match providers self !! providerName with
          | None => throw CallbackProviderNotFound
          | Some provider =>
              let! tokenData := exchangeCodeForToken now provider code in
              let! userInfo := getUserInfo providerName (access_token tokenData) in
              clearStoredState ;;
              clearCodeVerifier ;;
              localStorage_removeItem provider_key ;;
              ret {| cb_success := true; cb_provider := providerName;
                     cb_user := userInfo; cb_tokens := tokenData |}
          end
      end
  end.

(** The token exchange ran: its warning is on the console. *)
Definition exchange_invoked (w : state) : Prop :=
  console_warn exchange_warning ∈ console w.

End WithPlatform.

(** One value of [config.providers]. [settings] is its [config] object,
    which [registerProvider] dereferences. *)
Record ProviderSettings := {
  s_clientId : jsstring;
  s_authUrl : jsstring;
  s_tokenUrl : jsstring;
  s_scope : jsstring;
  s_redirectUri : option jsstring;
  s_responseMode : option jsstring
}.

Record ProviderEntry := {
  e_enabled : bool;
  e_type : jsstring;
  e_name : option jsstring;
  e_icon : jsstring;
  settings : option ProviderSettings
}.

Definition constructor (origin : jsstring) : OAuth2Auth :=
  {| providers := ∅; callbackUrl := origin ++ js "/auth/callback" |}.

Definition MissingProviders : exn := Error (js "OAuth2 config must have providers").

(** [registerProvider(name, config)]; the instance is updated in place. *)
Definition registerProvider (self : OAuth2Auth) (key : jsstring) (config : ProviderEntry)
  : (exn + unit) * OAuth2Auth :=
  match settings config with
  | None => (inl TypeError, self)
  | Some c =>
      (inr tt,
       {| providers :=
            <[key := {| name := or_str (e_name config) key;
                        clientId := s_clientId c;
                        authUrl := s_authUrl c;
                        tokenUrl := s_tokenUrl c;
                        scope := s_scope c;
                        redirectUri := or_str (s_redirectUri c) (callbackUrl self);
                        responseMode := s_responseMode c;
                        icon := e_icon config |}]> (providers self);
          callbackUrl := callbackUrl self |})
  end.

(** The [forEach] of [init] over [Object.entries(config.providers)]: it
    stops at the first entry that throws. *)
Fixpoint register_all (self : OAuth2Auth) (entries : list (jsstring * ProviderEntry))
  : (exn + unit) * OAuth2Auth :=
  match entries with
  | [] => (inr tt, self)
  | (key, provider) :: rest =>
      if e_enabled provider && bool_decide (e_type provider = js "oauth2") then
        match registerProvider self key provider with
        | (inr _, self') => register_all self' rest
        | failed => failed
        end
      else register_all self rest
  end.

(** [init(config)]; [None] stands for a missing [config] or
    [config.providers]. *)
Definition init (self : OAuth2Auth) (config_providers : option (list (jsstring * ProviderEntry)))
  : (exn + unit) * OAuth2Auth :=
  match config_providers with
  | None => (inl MissingProviders, self)
  | Some entries => register_all self entries
  end.

End OAuth2.

(** ** AuthManager *)

Module Manager.

Record RateLimitConfig := {
  enabled : bool;
  cfg_maxAttempts : option Z;
  cfg_windowMs : option Z
}.

Record DemoCredentials := {
  demo_username : option jsstring;
  demo_password : option jsstring
}.

(** The parts of [authConfig.authentication] the manager reads. *)
Record Config := {
  rateLimit : option RateLimitConfig;          (* security?.rateLimit *)
  demo_credentials : option DemoCredentials;   (* demo?.credentials *)
  tokenExpiry : option Z                       (* providers.local?.config?.tokenExpiry *)
}.

Record Credentials := {
  username : option jsstring;
  password : option jsstring
}.

(** The instance fields that do not change after [init]; the
    [rateLimiter] map is in [state]. *)
Record AuthManager := {
  config : Config;
  webauthn : option WebAuthn.WebAuthnAuth;
  oauth2 : option OAuth2.OAuth2Auth;
  sessionKey : jsstring;
  maxAttempts : option Z;
  windowMs : option Z
}.

Record AuthResult := {
  success : bool;
  method : option jsstring;
  user : option jsval
}.

(** What one call of [authenticate] receives from outside the program. *)
Record Inputs := {
  entropy1 : nat -> byte;
  entropy2 : nat -> byte;
  authenticator :
    PublicKeyCredentialRequestOptions -> exn + WebAuthn.AssertionCredential
}.

(** The errors [authenticate] and its strategies throw, named after the
    design document where it has a name for them; the source throws plain
    [Error]s with these messages. *)
Definition RateLimitedError : exn :=
  Error (js "Too many attempts. Please try again later.").
Definition CredentialsRequired : exn := Error (js "Username and password required").
Definition InvalidCredentialsError : exn := Error (js "Invalid username or password").
Definition WebAuthnNotAvailable : exn := Error (js "WebAuthn is not available").
Definition OAuth2NotAvailable : exn := Error (js "OAuth2 is not available").

(** [this.config.security?.rateLimit?.enabled] *)
Definition rateLimit_enabled (self : AuthManager) : bool :=
  match rateLimit (config self) with
  | Some r => enabled r
  | None => false
  end.

Definition setupRateLimiting (self : AuthManager) : AuthManager :=
  match rateLimit (config self) with
  | Some r =>
      if enabled r then
        {| config := config self; webauthn := webauthn self; oauth2 := oauth2 self;
           sessionKey := sessionKey self;
           maxAttempts := Some (or_num (cfg_maxAttempts r) 5);
           windowMs := Some (or_num (cfg_windowMs r) 900000) |}
      else self
  | None => self
  end.

(** [`ratelimit_${method}`] *)
Definition key_of (method : jsstring) : jsstring := js "ratelimit_" ++ method.

(** [a > b] and [a < b] where [b] may be [undefined]. *)
Definition gt_opt (a : Z) (b : option Z) : bool :=
  match b with Some b => a >? b | None => false end.
Definition lt_opt (a : Z) (b : option Z) : bool :=
  match b with Some b => a <? b | None => false end.

(** [this.rateLimiter.get(key) || { count: 0, timestamp: Date.now() }] *)
Definition entry_or_fresh (now : Z) (e : option attempts) : attempts :=
  match e with
  | Some a => a
  | None => {| count := 0; timestamp := now |}
  end.

Definition checkRateLimit (self : AuthManager) (now : Z) (method : jsstring) : M bool :=
  if negb (rateLimit_enabled self) then ret true else
  let key := key_of method in
  let! found := gets (fun w => rateLimiter w !! key) in
  let attempts := entry_or_fresh now found in
  if gt_opt (now - timestamp attempts) (windowMs self) then
    modify (with_rateLimiter (delete key)) ;;
    ret true
  else ret (lt_opt (count attempts) (maxAttempts self)).

Definition incrementRateLimit (self : AuthManager) (now : Z) (method : jsstring) : M unit :=
  if negb (rateLimit_enabled self) then ret tt else
  let key := key_of method in
  let! found := gets (fun w => rateLimiter w !! key) in
  let attempts := entry_or_fresh now found in
  let attempts := {| count := count attempts + 1; timestamp := timestamp attempts |} in
  modify (with_rateLimiter (insert key attempts)).

Definition resetRateLimit (method : jsstring) : M unit :=
  let key := key_of method in
  modify (with_rateLimiter (delete key)).

Section WithPlatform.
Context (P : Platform).

Definition createSession (self : AuthManager) (now : Z) (user : jsval) : M unit :=
  let sessionData :=
    Obj [(js "user", user);
         (js "loginTime", Num now);
         (js "expiry", Num (now + or_num (tokenExpiry (config self)) 86400000))] in
  localStorage_setItem (sessionKey self) (JSON_stringify P sessionData).

Definition logout (self : AuthManager) : M unit :=
  localStorage_removeItem (sessionKey self) ;;
  set_location_href (js "/index.html").

Definition checkSession (self : AuthManager) (now : Z) : M bool :=
  let! session := localStorage_getItem (sessionKey self) in
  match present session with
  | None => ret false
  | Some session =>
      try_catch
        (let! sessionData := WebAuthn.parse P session in
         let! expiry := lift (get_prop sessionData (js "expiry")) in
         if js_lt_num P expiry now then logout self ;; ret false
         else ret true)
        (fun error =>
           log (console_error (js "Session validation error:") error) ;;
           logout self ;;
           ret false)
  end.

Definition getSession (self : AuthManager) : M jsval :=
  let! session := localStorage_getItem (sessionKey self) in
  match present session with
  | None => ret Null
  | Some session =>
      match JSON_parse P session with
      | Some v => ret v
      | None => ret Null
      end
  end.

Definition authenticateLocal (self : AuthManager) (credentials : option Credentials)
  : M AuthResult :=
  match credentials with
  | None => throw CredentialsRequired
  | Some c =>
      match present (username c), present (password c) with
      | Some u, Some pw =>
          match demo_credentials (config self) with
          | Some demo =>
              if bool_decide (Some u = demo_username demo)
                 && bool_decide (Some pw = demo_password demo)
              then ret {| success := true; method := Some (js "local");
                          user := Some (Obj [(js "username", Str u);
                                             (js "displayName", Str u)]) |}
              else throw InvalidCredentialsError
          | None => throw InvalidCredentialsError
          end
      | _, _ => throw CredentialsRequired
      end
  end.

Definition authenticateWebAuthn (self : AuthManager) (i : Inputs) : M AuthResult :=
  match webauthn self with
  | None => throw WebAuthnNotAvailable
  | Some wa =>
      let! result := WebAuthn.authenticate P wa (entropy1 i) (authenticator i) in
      ret {| success := WebAuthn.ar_success result;
             method := Some (js "webauthn");
             user := Some (Obj [(js "username", WebAuthn.ar_username result);
                                (js "displayName", WebAuthn.ar_username result)]) |}
  end.

Definition authenticateOAuth2 (self : AuthManager) (i : Inputs) (provider : jsstring)
  : M AuthResult :=
  match oauth2 self with
  | None => throw OAuth2NotAvailable
  | Some oa =>
      OAuth2.authenticate P oa (entropy1 i) (entropy2 i) provider ;;
      ret {| success := false; method := None; user := None |}
  end.

(** [result.user || { username: credentials?.username }] *)
Definition session_user (result : AuthResult) (credentials : option Credentials) : jsval :=
  let fallback :=
    Obj [(js "username",
          match credentials with
          | Some c => match username c with Some u => Str u | None => Undefined end
          | None => Undefined
          end)] in
  match user result with
  | Some u => if truthy u then u else fallback
  | None => fallback
  end.

(** The [switch] of [authenticate]. *)
Definition dispatch (self : AuthManager) (i : Inputs)
    (method : jsstring) (credentials : option Credentials) : M AuthResult :=
  if bool_decide (method = js "local") then authenticateLocal self credentials
  else if bool_decide (method = js "webauthn") then authenticateWebAuthn self i
  else authenticateOAuth2 self i method.

(** The body of the [try] block of [authenticate]. *)
Definition attempt (self : AuthManager) (i : Inputs) (later : Z)
    (method : jsstring) (credentials : option Credentials) : M AuthResult :=
  let! result := dispatch self i method credentials in
  resetRateLimit method ;;
  (if success result then createSession self later (session_user result credentials)
   else ret tt) ;;
  ret result.

(** [authenticate(method, credentials)]. [now] is the clock when the call
    starts, [later] the clock once the awaited strategy has settled. *)
Definition authenticate (self : AuthManager) (i : Inputs) (now later : Z)
    (method : jsstring) (credentials : option Credentials) : M AuthResult :=
  let! allowed := checkRateLimit self now method in
  if negb allowed then throw RateLimitedError else
  try_catch
    (attempt self i later method credentials)
    (fun error =>
       incrementRateLimit self later method ;;
       throw error).

Definition registerWebAuthn (self : AuthManager) (rnd : nat -> byte)
    (create : PublicKeyCredentialCreationOptions -> exn + WebAuthn.AttestationCredential)
    (now : Z) (username : jsstring) : M (bool * list (jsstring * jsval)) :=
  match webauthn self with
  | None => throw WebAuthnNotAvailable
  | Some wa =>
      let! credential := WebAuthn.register P wa rnd create now username in
      ret (true, credential)
  end.

Definition isWebAuthnAvailable (self : AuthManager) (probe : exn + bool) : M bool :=
  match webauthn self with
  | None => ret false
  | Some _ => WebAuthn.isPlatformAuthenticatorAvailable P probe
  end.

Definition protectPage (self : AuthManager) (now : Z) : M unit :=
  let! valid := checkSession self now in
  if negb valid then set_location_href (js "/public/login.html") else ret tt.

End WithPlatform.
End Manager.

(** ** Notions used in the statements *)

(** A series of [authenticate] calls for one method, one after the other. *)
Module Scenario.
Import Manager.

Record Attempt := {
  inputs : Inputs;
  started : Z;                 (* the clock when the call starts *)
  settled : Z;                 (* the clock when its strategy has settled *)
  credentials : option Credentials
}.

Fixpoint run (P : Platform) (self : AuthManager) (method : jsstring)
    (l : list Attempt) (w : state) : list (exn + AuthResult) * state :=
  match l with
  | [] => ([], w)
  | a :: rest =>
      let (r, w1) :=
        authenticate P self (inputs a) (started a) (settled a) method (credentials a) w in
      let (rs, w2) := run P self method rest w1 in
      (r :: rs, w2)
  end.

Definition failed (r : exn + AuthResult) : Prop := exists e, r = inl e.

End Scenario.

Module Encoding_aux.
Import Encoding.

Definition sextet (i : Z) : Prop := 0 <= i < 64.
Definition octet (c : Z) : Prop := 0 <= c < 256.

(** The sextets and the padding [b64_encode] emits, separately. *)
Fixpoint enc_sextets (s : jsstring) : list Z :=
  match s with
  | [] => []
  | [a] => [a / 4; (a mod 4) * 16]
  | [a; b] => [a / 4; (a mod 4) * 16 + b / 16; (b mod 16) * 4]
  | a :: b :: c :: rest =>
      a / 4 :: (a mod 4) * 16 + b / 16 :: (b mod 16) * 4 + c / 64 :: c mod 64
      :: enc_sextets rest
  end.

Fixpoint enc_pad (s : jsstring) : jsstring :=
  match s with
  | [] => []
  | [_] => [pad; pad]
  | [_; _] => [pad]
  | _ :: _ :: _ :: rest => enc_pad rest
  end.

(** The design document's [base64url]: base64 over the URL-safe alphabet
    ([-] and [_] for the last two digits), without padding. Written from
    the document, to be compared with what [generatePKCE] computes. *)
Definition b64url_char (i : Z) : Z :=
  if i <? 26 then 65 + i
  else if i <? 52 then 71 + i
  else if i <? 62 then i - 4
  else if i =? 62 then 45         (* - *)
  else 95.                        (* _ *)

Fixpoint base64url (data : list byte) : jsstring :=
  match data with
  | [] => []
  | [a] =>
      let a := byte_to_Z a in
      [b64url_char (a / 4); b64url_char ((a mod 4) * 16)]
  | [a; b] =>
      let a := byte_to_Z a in
      let b := byte_to_Z b in
      [b64url_char (a / 4); b64url_char ((a mod 4) * 16 + b / 16);
       b64url_char ((b mod 16) * 4)]
  | a :: b :: c :: rest =>
      let a := byte_to_Z a in
      let b := byte_to_Z b in
      let c := byte_to_Z c in
      b64url_char (a / 4) :: b64url_char ((a mod 4) * 16 + b / 16)
      :: b64url_char ((b mod 16) * 4 + c / 64) :: b64url_char (c mod 64)
      :: base64url rest
  end.

(** The unreserved characters of a URI: letters, digits, [-], [.], [_], [~]. *)
Definition unreserved (c : Z) : bool :=
  ((65 <=? c) && (c <=? 90)) || ((97 <=? c) && (c <=? 122))
  || ((48 <=? c) && (c <=? 57))
  || (c =? 45) || (c =? 46) || (c =? 95) || (c =? 126).

(** A lower-case hexadecimal digit. *)
Definition hex_char (c : Z) : Prop := 48 <= c <= 57 \/ 97 <= c <= 102.

(** The three [replace] calls of [generatePKCE]. *)
Definition url_safe (b64 : jsstring) : jsstring :=
  replace_all 61 [] (replace_all 47 (js "_") (replace_all 43 (js "-") b64)).

End Encoding_aux.

(** The record [createSession] writes at time [now]. *)
Definition session_record (self : Manager.AuthManager) (now : Z) (user : jsval) : jsval :=
  Obj [(js "user", user);
       (js "loginTime", Num now);
       (js "expiry",
        Num (now + or_num (Manager.tokenExpiry (Manager.config self)) 86400000))].

(** The platform's JSON gives a value back: it serialises to a non-empty
    text that parses to the value. *)
Definition JSON_faithful (P : Platform) (v : jsval) : Prop :=
  JSON_parse P (JSON_stringify P v) = Some v /\ JSON_stringify P v <> [].


(** The entry [storeCredential] appends for a credential. *)
Definition stored_credential (username : jsstring) (c : WebAuthn.AttestationCredential)
    (now : Z) : jsval :=
  Obj [(js "username", Str username);
       (js "id", Str (WebAuthn.ac_id c));
       (js "rawId", Str (Encoding.b64_encode (map byte_to_Z (WebAuthn.ac_rawId c))));
       (js "type", Str (WebAuthn.ac_type c));
       (js "response",
        Obj [(js "clientDataJSON",
              Str (Encoding.b64_encode (map byte_to_Z (WebAuthn.ac_clientDataJSON c))));
             (js "attestationObject",
              Str (Encoding.b64_encode (map byte_to_Z (WebAuthn.ac_attestationObject c))))]);
       (js "createdAt", Num now)].

(** The query parameters of the authorization URL. *)
Definition authorization_params (provider : OAuth2.Provider) (st challenge : jsstring)
  : list (jsstring * jsstring) :=
  [(js "client_id", OAuth2.clientId provider);
   (js "redirect_uri", OAuth2.redirectUri provider);
   (js "response_type", js "code");
   (js "scope", OAuth2.scope provider);
   (js "state", st);
   (js "code_challenge", challenge);
   (js "code_challenge_method", js "S256")]
  ++ match present (OAuth2.responseMode provider) with
     | Some m => [(js "response_mode", m)]
     | None => []
     end.

(** A character of the URL-safe base64 alphabet. *)
Definition url_safe_code (c : Z) : Prop :=
  65 <= c <= 90 \/ 97 <= c <= 122 \/ 48 <= c <= 57 \/ c = 45 \/ c = 95.

Module Flow_aux.
Import OAuth2.

(** The state in which an accepted callback leaves the browser. *)
Definition settled (w : state) : state :=
  with_localStorage (delete provider_key)
    (with_localStorage (delete verifier_key)
       (with_localStorage (delete state_key)
          (with_console (console_warn exchange_warning) w))).

(** What an accepted callback returns for a provider. *)
Definition accepted (P : Platform) (now : Z) (providerName : jsstring) (provider : Provider)
  : CallbackResult :=
  {| cb_success := true;
     cb_provider := providerName;
     cb_user := {| ui_id := js "demo_user_id"; ui_email := js "user@example.com";
                   ui_name := js "Demo User"; ui_provider := providerName;
                   ui_verified := true |};
     cb_tokens := {| access_token := js "demo_access_token_" ++ ToString P (Num now);
                     token_type := js "Bearer"; expires_in := 3600;
                     token_scope := scope provider |} |}.

(** A configured entry that [init] registers. *)
Definition usable (e : ProviderEntry) : Prop :=
  e_enabled e = true /\ e_type e = js "oauth2".

End Flow_aux.

Module WebAuthn_aux.
Import WebAuthn.

(** The entry of [allowCredentials] for a raw credential id. *)
Definition allowed (rawId : list byte) : list byte * jsstring * list jsstring :=
  (rawId, js "public-key", [js "internal"; js "usb"; js "nfc"; js "ble"]).

(** The options [authenticate] hands to [navigator.credentials.get]. *)
Definition assertion_request (self : WebAuthnAuth) (challenge : list byte)
    (allow : list (list byte * jsstring * list jsstring))
  : PublicKeyCredentialRequestOptions :=
  {| ro_challenge := challenge;
     ro_rpId := rpId self;
     ro_allowCredentials := allow;
     ro_timeout := or_num (cfg self timeout) 60000;
     ro_userVerification := or_str (cfg self userVerification) (js "preferred") |}.

(** A step that, when it throws, has left [localStorage] as it was. *)
Definition fails_clean {A} (m : M A) : Prop :=
  forall w e w', m w = (inl e, w') -> localStorage w' = localStorage w.

(** A code unit that is a character by itself: not half of a surrogate
    pair. *)
Definition plain (c : Z) : Prop := 0 <= c < 0xD800 \/ 0xE000 <= c < 0x10000.

(** An alphabet character of base64, or the padding sign. *)
Definition base64_code (c : Z) : Prop :=
  is_Some (Encoding.b64_index c) \/ c = Encoding.pad.

End WebAuthn_aux.

(** A step leaves a component of the state alone. *)
Definition preserves {A B} (proj : state -> B) (m : M A) : Prop :=
  forall w, proj (snd (m w)) = proj w.

(** The platform calls a run added to the trace. *)
Definition new_calls {A} (m : M A) (w : state) : list platform_call :=
  drop (length (calls w)) (calls (snd (m w))).

(** A browser for closed examples: its JSON understands the three texts
    the examples store. *)
Module Example.

Definition quoted (s : string) : jsstring := [34] ++ js s ++ [34].

Definition empty_list_text : jsstring := js "[]".

(** The text of a session for user [ana] that was created at time 0 and
    expires at 5 or at 10. *)
Definition session_text (expiry : string) : jsstring :=
  js "{" ++ quoted "user" ++ js ":{" ++ quoted "username" ++ js ":" ++ quoted "ana"
  ++ js "}," ++ quoted "loginTime" ++ js ":0," ++ quoted "expiry" ++ js ":"
  ++ js expiry ++ js "}".
Definition session_value (expiry : Z) : jsval :=
  Obj [(js "user", Obj [(js "username", Str (js "ana"))]);
       (js "loginTime", Num 0);
       (js "expiry", Num expiry)].

Definition browser (supported : bool) : Platform :=
  {| JSON_parse := fun text =>
       if decide (text = empty_list_text) then Some (Arr [])
       else if decide (text = session_text "5") then Some (session_value 5)
       else if decide (text = session_text "10") then Some (session_value 10)
       else None;
     JSON_stringify := fun _ => js "{}";
     ToNumber := fun _ => None;
     ToString := fun _ => js "0";
     digest_SHA256 := fun data => data;
     URLSearchParams_toString := fun _ => [];
     webauthn_present := supported |}.

Definition fresh : state :=
  {| localStorage := ∅; location_href := js "/public/login.html";
     console := []; calls := [];
     rateLimiter := ∅; currentProvider := None |}.

Definition zeros : nat -> byte := fun _ => x00.
Definition ones : nat -> byte := fun _ => xff.

Definition no_authenticator
  : PublicKeyCredentialRequestOptions -> exn + WebAuthn.AssertionCredential :=
  fun _ => inl (DOMException (js "NotAllowedError")).

Definition no_attestation
  : PublicKeyCredentialCreationOptions -> exn + WebAuthn.AttestationCredential :=
  fun _ => inl (DOMException (js "NotAllowedError")).

Definition passkeys : WebAuthn.WebAuthnAuth := WebAuthn.constructor (js "dryouu.uk").

(** The callback of the examples: [?code=x&state=wrong], with or without
    [&error=access_denied]. *)
Definition wrong_state (with_error : bool) (k : jsstring) : option jsstring :=
  if decide (k = js "code") then Some (js "x")
  else if decide (k = js "state") then Some (js "wrong")
  else if decide (k = js "error")
       then (if with_error then Some (js "access_denied") else None)
  else None.

Definition pending_right : state :=
  with_localStorage (insert OAuth2.state_key (js "right")) fresh.

Definition google : OAuth2.Provider :=
  {| OAuth2.name := js "Google";
     OAuth2.clientId := js "client-id";
     OAuth2.authUrl := js "https://accounts.google.com/o/oauth2/v2/auth";
     OAuth2.tokenUrl := js "https://oauth2.googleapis.com/token";
     OAuth2.scope := js "openid email profile";
     OAuth2.redirectUri := js "https://dryouu.uk/auth/callback";
     OAuth2.responseMode := None;
     OAuth2.icon := js "G" |}.

Definition google_only : OAuth2.OAuth2Auth :=
  {| OAuth2.providers := {[ js "google" := google ]};
     OAuth2.callbackUrl := js "https://dryouu.uk/auth/callback" |}.

Definition no_providers : OAuth2.OAuth2Auth :=
  {| OAuth2.providers := ∅; OAuth2.callbackUrl := js "https://dryouu.uk/auth/callback" |}.


(** A manager with the documented limits, and one with the limiter off. *)
Definition limits (on : bool) : Manager.RateLimitConfig :=
  {| Manager.enabled := on;
     Manager.cfg_maxAttempts := Some 5;
     Manager.cfg_windowMs := Some 900000 |}.

Definition constructed (on : bool) : Manager.AuthManager :=
  {| Manager.config :=
       {| Manager.rateLimit := Some (limits on);
          Manager.demo_credentials :=
            Some {| Manager.demo_username := Some (js "admin");
                    Manager.demo_password := Some (js "demo123") |};
          Manager.tokenExpiry := None |};
     Manager.webauthn := None;
     Manager.oauth2 := None;
     Manager.sessionKey := js "dryouu_session";
     Manager.maxAttempts := None;
     Manager.windowMs := None |}.

Definition manager (on : bool) : Manager.AuthManager :=
  Manager.setupRateLimiting (constructed on).

Definition wrong_password : option Manager.Credentials :=
  Some {| Manager.username := Some (js "admin"); Manager.password := Some (js "wrong") |}.

Definition right_password : option Manager.Credentials :=
  Some {| Manager.username := Some (js "admin"); Manager.password := Some (js "demo123") |}.

Definition inputs : Manager.Inputs :=
  {| Manager.entropy1 := zeros; Manager.entropy2 := ones;
     Manager.authenticator := no_authenticator |}.

(** A wrong password for [local], tried at time [t], refused a millisecond later. *)
Definition bad_login (t : Z) : Scenario.Attempt :=
  {| Scenario.inputs := inputs; Scenario.started := t; Scenario.settled := t + 1;
     Scenario.credentials := wrong_password |}.

(** A store that holds the session expiring at 5, or at 10. *)
Definition with_session (expiry : string) : state :=
  with_localStorage (insert (js "dryouu_session") (session_text expiry)) fresh.

(** A browser whose JSON writes every value as [#] and reads [#] back as
    [v]: faithful for the one value an example stores. *)
Definition echo (v : jsval) : Platform :=
  {| JSON_parse := fun text =>
       if decide (text = js "#") then Some v
       else if decide (text = empty_list_text) then Some (Arr [])
       else None;
     JSON_stringify := fun _ => js "#";
     ToNumber := fun _ => None;
     ToString := fun _ => js "0";
     digest_SHA256 := fun data => take 32 (data ++ repeat x00 32);
     URLSearchParams_toString := fun _ => [];
     webauthn_present := true |}.


(** A passkey the authenticator creates, and the assertion it gives for it. *)
Definition passkey : WebAuthn.AttestationCredential :=
  {| WebAuthn.ac_id := js "AQID";
     WebAuthn.ac_rawId := [x01; x02; x03];
     WebAuthn.ac_type := js "public-key";
     WebAuthn.ac_clientDataJSON := [x7b; x7d];
     WebAuthn.ac_attestationObject := [xa0] |}.

Definition passkey_assertion : WebAuthn.AssertionCredential :=
  {| WebAuthn.as_id := js "AQID";
     WebAuthn.as_rawId := [x01; x02; x03];
     WebAuthn.as_type := js "public-key";
     WebAuthn.as_authenticatorData := [x00];
     WebAuthn.as_clientDataJSON := [x7b; x7d];
     WebAuthn.as_signature := [x30];
     WebAuthn.as_userHandle := None |}.

(** The providers section of an auth config: Google enabled, GitHub
    disabled, and the local provider, which is not an OAuth2 one. *)
Definition google_settings : OAuth2.ProviderSettings :=
  {| OAuth2.s_clientId := js "client-id";
     OAuth2.s_authUrl := js "https://accounts.google.com/o/oauth2/v2/auth";
     OAuth2.s_tokenUrl := js "https://oauth2.googleapis.com/token";
     OAuth2.s_scope := js "openid email profile";
     OAuth2.s_redirectUri := None;
     OAuth2.s_responseMode := None |}.

Definition local_entry : OAuth2.ProviderEntry :=
  {| OAuth2.e_enabled := true; OAuth2.e_type := js "local"; OAuth2.e_name := None;
     OAuth2.e_icon := js "K"; OAuth2.settings := None |}.

Definition google_entry : OAuth2.ProviderEntry :=
  {| OAuth2.e_enabled := true; OAuth2.e_type := js "oauth2";
     OAuth2.e_name := Some (js "Google"); OAuth2.e_icon := js "G";
     OAuth2.settings := Some google_settings |}.

Definition github_entry : OAuth2.ProviderEntry :=
  {| OAuth2.e_enabled := false; OAuth2.e_type := js "oauth2";
     OAuth2.e_name := Some (js "GitHub"); OAuth2.e_icon := js "H";
     OAuth2.settings := Some google_settings |}.

Definition config_providers : list (jsstring * OAuth2.ProviderEntry) :=
  [(js "local", local_entry); (js "google", google_entry); (js "github", github_entry)].

(** The callback [?code=x&state=right]. *)
Definition right_state (k : jsstring) : option jsstring :=
  if decide (k = js "code") then Some (js "x")
  else if decide (k = js "state") then Some (js "right")
  else None.

Definition pending_google : state :=
  with_localStorage (insert OAuth2.provider_key (js "google")) pending_right.

(** A limiter entry for [local]: three failures, the first at time 0. *)
Definition three_failures : state :=
  with_rateLimiter (insert (Manager.key_of (js "local")) {| count := 3; timestamp := 0 |}) fresh.

End Example.

(** * Properties *)

(** ** Bytes and lists *)

Lemma byte_to_Z_range (b : byte) : 0 <= byte_to_Z b < 256.
Proof.
  unfold byte_to_Z. pose proof (Byte.to_N_bounded b). lia.
Qed.

Lemma byte_of_to_Z (b : byte) : byte_of_Z (byte_to_Z b) = b.
Proof.
  unfold byte_of_Z. pose proof (byte_to_Z_range b) as R.
  rewrite Z.mod_small by lia. unfold byte_to_Z.
  rewrite N2Z.id. now rewrite Byte.of_to_N.
Qed.

Lemma list_ind3 {A} (Q : list A -> Prop) :
  Q [] -> (forall a, Q [a]) -> (forall a b, Q [a; b]) ->
  (forall a b c l, Q l -> Q (a :: b :: c :: l)) ->
  forall l, Q l.
Proof.
  intros H0 H1 H2 H3. fix IH 1.
  intros [|a [|b [|c l]]]; [apply H0 | apply H1 | apply H2 | apply H3, IH].
Qed.

Lemma filter_all {A} (f : A -> bool) (l : list A) :
  Forall (fun x => f x = true) l -> List.filter f l = l.
Proof.
  induction 1 as [|x l Hx _ IH]; simpl; [reflexivity|].
  now rewrite Hx, IH.
Qed.

(** ** The encodings on known values *)

Module EncodingTests.
Import Encoding Encoding_aux.

Example btoa_Man : btoa (js "Man") = inr (js "TWFu").
Proof. reflexivity. Qed.

Example btoa_Ma : btoa (js "Ma") = inr (js "TWE=").
Proof. reflexivity. Qed.

Example btoa_wide : btoa [0x20AC] = inl InvalidCharacterError.
Proof. reflexivity. Qed.

Example atob_padded : atob (js "TQ==") = inr (js "M").
Proof. reflexivity. Qed.

Example atob_unpadded_spaced : atob (js " TW E ") = inr (js "Ma").
Proof. reflexivity. Qed.

Example atob_bad_length : atob (js "TWFuT") = inl InvalidCharacterError.
Proof. reflexivity. Qed.

Example atob_bad_char : atob (js "TW-u") = inl InvalidCharacterError.
Proof. reflexivity. Qed.

Example hex_three : hex_of_bytes [x00; x0a; xff] = js "000aff".
Proof. reflexivity. Qed.

(** U+00E9, U+20AC, and U+1F600 as a surrogate pair. *)
Example utf8_samples :
  TextEncoder_encode [0xE9; 0x20AC; 0xD83D; 0xDE00]
  = [xc3; xa9; xe2; x82; xac; xf0; x9f; x98; x80].
Proof. reflexivity. Qed.

Example utf8_lone_surrogate : TextEncoder_encode [0xD83D; 0x41] = [xef; xbf; xbd; x41].
Proof. reflexivity. Qed.

Example base64url_sample : base64url [xfb; xff; xfe] = js "-__-".
Proof. reflexivity. Qed.

Example base64url_short : base64url [xfb; xff] = js "-_8".
Proof. reflexivity. Qed.

End EncodingTests.

(** ** base64 *)

Module Base64Facts.
Import Encoding Encoding_aux.

Ltac zbool :=
  repeat match goal with
    | |- context [?a <? ?b] => destruct (Z.ltb_spec a b); cbn [andb orb negb]; try lia
    | |- context [?a <=? ?b] => destruct (Z.leb_spec a b); cbn [andb orb negb]; try lia
    | |- context [?a =? ?b] => destruct (Z.eqb_spec a b); cbn [andb orb negb]; try lia
    end.

Lemma b64_encode_split (s : jsstring) :
  b64_encode s = map b64_char (enc_sextets s) ++ enc_pad s.
Proof.
  induction s as [| a | a b | a b c l IH] using list_ind3; try reflexivity.
  cbn [b64_encode enc_sextets enc_pad map app]. now rewrite IH.
Qed.

Lemma enc_sextets_range (s : jsstring) :
  Forall octet s -> Forall sextet (enc_sextets s).
Proof.
  unfold octet, sextet.
  induction s as [| a | a b | a b c l IH] using list_ind3; intros H; cbn [enc_sextets].
  - constructor.
  - inversion_clear H. repeat constructor; Z.div_mod_to_equations; lia.
  - inversion_clear H as [|? ? Ha H']. inversion_clear H'.
    repeat constructor; Z.div_mod_to_equations; lia.
  - inversion_clear H as [|? ? Ha H']. inversion_clear H' as [|? ? Hb H''].
    inversion_clear H'' as [|? ? Hc Hl].
    repeat (constructor; [Z.div_mod_to_equations; lia|]). auto.
Qed.

Lemma enc_sextets_length (s : jsstring) :
  exists k : nat, length (enc_sextets s) = (4 * k)%nat
               \/ length (enc_sextets s) = (4 * k + 2)%nat
               \/ length (enc_sextets s) = (4 * k + 3)%nat.
Proof.
  induction s as [| a | a b | a b c l IH] using list_ind3; cbn [enc_sextets length].
  - exists 0%nat. lia.
  - exists 0%nat. lia.
  - exists 0%nat. lia.
  - destruct IH as [k IH]. exists (S k). lia.
Qed.

Lemma b64_encode_length (s : jsstring) :
  exists k : nat, length (b64_encode s) = (4 * k)%nat.
Proof.
  induction s as [| a | a b | a b c l IH] using list_ind3; cbn [b64_encode length].
  - exists 0%nat. lia.
  - exists 1%nat. lia.
  - exists 1%nat. lia.
  - destruct IH as [k IH]. exists (S k). lia.
Qed.

Lemma enc_pad_cases (s : jsstring) :
  enc_pad s = [] \/ enc_pad s = [pad] \/ enc_pad s = [pad; pad].
Proof.
  induction s as [| a | a b | a b c l IH] using list_ind3; cbn [enc_pad]; auto.
Qed.

Lemma b64_char_cases (i : Z) :
  sextet i ->
  (i < 26 /\ b64_char i = 65 + i) \/ (26 <= i < 52 /\ b64_char i = 71 + i)
  \/ (52 <= i < 62 /\ b64_char i = i - 4) \/ (i = 62 /\ b64_char i = 43)
  \/ (i = 63 /\ b64_char i = 47).
Proof.
  unfold sextet, b64_char. intros H.
  destruct (Z.ltb_spec i 26); [lia|].
  destruct (Z.ltb_spec i 52); [lia|].
  destruct (Z.ltb_spec i 62); [lia|].
  destruct (Z.eqb_spec i 62); lia.
Qed.

Ltac b64_cases i H :=
  destruct (b64_char_cases i H) as [[? ->] | [[? ->] | [[? ->] | [[? ->] | [? ->]]]]];
  unfold sextet in H.

Lemma b64_index_char (i : Z) : sextet i -> b64_index (b64_char i) = Some i.
Proof.
  intros H. b64_cases i H; unfold b64_index; zbool; f_equal; lia.
Qed.

Lemma b64_char_not_pad (i : Z) : sextet i -> (b64_char i =? pad) = false.
Proof.
  intros H. b64_cases i H; unfold pad; zbool; reflexivity.
Qed.

Lemma b64_char_not_space (i : Z) : sextet i -> ascii_whitespace (b64_char i) = false.
Proof.
  intros H. b64_cases i H; unfold ascii_whitespace; zbool; reflexivity.
Qed.

Lemma sextets_of_chars (l : list Z) :
  Forall sextet l -> sextets_of (map b64_char l) = Some l.
Proof.
  induction 1 as [|i l Hi _ IH]; cbn [map sextets_of]; [reflexivity|].
  now rewrite b64_index_char, IH.
Qed.

Lemma strip_padding_encoded (l : list Z) (p : jsstring) :
  Forall sextet l ->
  p = [] \/ p = [pad] \/ p = [pad; pad] ->
  strip_padding (map b64_char l ++ p) = map b64_char l.
Proof.
  intros Hl Hp. unfold strip_padding. rewrite rev_app_distr.
  assert (Hlast : match rev (map b64_char l) with
                  | a :: _ => (a =? pad) = false
                  | [] => True
                  end).
  { rewrite <- map_rev. apply Forall_rev in Hl.
    destruct Hl as [|i r Hi _]; cbn [map]; [exact I|].
    now apply b64_char_not_pad. }
  destruct Hp as [-> | [-> | ->]]; cbn [rev app].
  - rewrite app_nil_r. destruct (rev (map b64_char l)); [reflexivity|].
    now rewrite Hlast.
  - change (pad =? pad) with true. cbn iota.
    destruct (rev (map b64_char l)) as [|a r] eqn:E.
    + apply (f_equal (@rev Z)) in E. rewrite rev_involutive in E. now rewrite E.
    + rewrite Hlast. rewrite <- E. apply rev_involutive.
  - change (pad =? pad) with true. cbn iota. apply rev_involutive.
Qed.

Lemma b64_decode_sextets (s : jsstring) :
  Forall octet s -> b64_decode (enc_sextets s) = s.
Proof.
  unfold octet.
  induction s as [| a | a b | a b c l IH] using list_ind3; intros H;
    cbn [enc_sextets b64_decode].
  - reflexivity.
  - inversion_clear H. f_equal. Z.div_mod_to_equations; lia.
  - inversion_clear H as [|? ? Ha H']. inversion_clear H'.
    repeat f_equal; Z.div_mod_to_equations; lia.
  - inversion_clear H as [|? ? Ha H']. inversion_clear H' as [|? ? Hb H''].
    inversion_clear H'' as [|? ? Hc Hl].
    rewrite IH by assumption.
    repeat f_equal; Z.div_mod_to_equations; lia.
Qed.

Lemma b64_encode_no_space (s : jsstring) :
  Forall octet s ->
  Forall (fun c => negb (ascii_whitespace c) = true) (b64_encode s).
Proof.
  intros H. rewrite b64_encode_split. apply Forall_app. split.
  - apply enc_sextets_range in H. induction H as [|i l Hi _ IH]; constructor; auto.
    now rewrite b64_char_not_space.
  - destruct (enc_pad_cases s) as [-> | [-> | ->]]; repeat constructor.
Qed.

(** [atob] undoes [b64_encode] on binary strings. *)
Lemma atob_b64_encode (s : jsstring) :
  Forall octet s -> atob (b64_encode s) = inr s.
Proof.
  intros H. unfold atob.
  rewrite (filter_all _ _ (b64_encode_no_space s H)).
  destruct (b64_encode_length s) as [k Hk].
  replace (Z.of_nat (length (b64_encode s)) mod 4 =? 0) with true
    by (symmetry; apply Z.eqb_eq; rewrite Hk; Z.div_mod_to_equations; lia).
  rewrite b64_encode_split.
  rewrite strip_padding_encoded
    by (auto using enc_sextets_range, enc_pad_cases).
  rewrite length_map.
  destruct (enc_sextets_length s) as [j Hj].
  replace (Z.of_nat (length (enc_sextets s)) mod 4 =? 1) with false
    by (symmetry; apply Z.eqb_neq; Z.div_mod_to_equations; lia).
  rewrite sextets_of_chars by auto using enc_sextets_range.
  now rewrite b64_decode_sextets.
Qed.

Lemma octets_of_bytes (bs : list byte) : Forall octet (map byte_to_Z bs).
Proof.
  induction bs; constructor; auto. apply byte_to_Z_range.
Qed.

Lemma btoa_bytes (bs : list byte) :
  btoa (map byte_to_Z bs) = inr (b64_encode (map byte_to_Z bs)).
Proof.
  unfold btoa.
  replace (forallb _ (map byte_to_Z bs)) with true; [reflexivity|].
  symmetry. apply forallb_forall. intros c Hc.
  apply in_map_iff in Hc as (b & <- & _).
  pose proof (byte_to_Z_range b). apply andb_true_iff. split; apply Z.leb_le; lia.
Qed.

End Base64Facts.

(** ** The monad *)

Lemma try_catch_bind_ret {A B} (m : M A) (k : A -> M B) (h : exn -> M B) w a w' :
  m w = (inr a, w') -> try_catch (bind m k) h w = try_catch (k a) h w'.
Proof.
  intros H. unfold try_catch, bind. now rewrite H.
Qed.

Section Preserves.
Context {B : Type} (proj : state -> B).

Lemma preserves_ret {A} (a : A) : preserves proj (ret a).
Proof. now intros w. Qed.

Lemma preserves_throw {A} (e : exn) : preserves proj (@throw A e).
Proof. now intros w. Qed.

Lemma preserves_lift {A} (r : exn + A) : preserves proj (lift r).
Proof. now intros w. Qed.

Lemma preserves_gets {A} (f : state -> A) : preserves proj (gets f).
Proof. now intros w. Qed.

Lemma preserves_modify (f : state -> state) :
  (forall w, proj (f w) = proj w) -> preserves proj (modify f).
Proof. intros H w. apply H. Qed.

Lemma preserves_bind {A C} (m : M A) (k : A -> M C) :
  preserves proj m -> (forall a, preserves proj (k a)) -> preserves proj (bind m k).
Proof.
  intros Hm Hk w. unfold bind. specialize (Hm w).
  destruct (m w) as [[e | a] w']; simpl in *; [assumption|].
  now rewrite Hk.
Qed.

Lemma preserves_try_catch {A} (body : M A) (h : exn -> M A) :
  preserves proj body -> (forall e, preserves proj (h e)) ->
  preserves proj (try_catch body h).
Proof.
  intros Hb Hh w. unfold try_catch. specialize (Hb w).
  destruct (body w) as [[e | a] w']; simpl in *; [|assumption].
  now rewrite Hh.
Qed.

End Preserves.

(** Decompose a monadic term into the steps above. *)
Ltac preserve_step :=
  first
    [ apply preserves_ret | apply preserves_throw | apply preserves_lift
    | apply preserves_gets
    | apply preserves_bind; [|intros]
    | apply preserves_try_catch; [|intros]
    | apply preserves_modify; intros; reflexivity
    | match goal with
      | |- preserves _ (match ?x with _ => _ end) => destruct x
      | |- preserves _ (let _ := _ in _) => cbv zeta
      end ].

Ltac preserve := repeat preserve_step.

Lemma preserves_getRandomValues {B} (proj : state -> B) rnd n :
  (forall c w, proj (with_call c w) = proj w) ->
  preserves proj (getRandomValues rnd n).
Proof.
  intros H. unfold getRandomValues, record_call. preserve.
  apply preserves_modify. intros. apply H.
Qed.

(** ** WebAuthnAuth *)

Module WebAuthnFacts.
Import Encoding Encoding_aux Base64Facts WebAuthn.

Lemma binary_loop (bytes : list byte) (acc : jsstring) :
  fold_left (fun binary b => binary ++ [byte_to_Z b]) bytes acc
  = acc ++ map byte_to_Z bytes.
Proof.
  revert acc. induction bytes as [|b bytes IH]; intros acc; cbn [fold_left map].
  - now rewrite app_nil_r.
  - rewrite IH, <- app_assoc. reflexivity.
Qed.

Lemma arrayBufferToBase64_ok (buffer : list byte) :
  arrayBufferToBase64 buffer = inr (b64_encode (map byte_to_Z buffer)).
Proof.
  unfold arrayBufferToBase64. rewrite binary_loop. apply btoa_bytes.
Qed.

(** C10: decoding the transport encoding of a byte buffer gives the buffer
    back: [arrayBufferToBase64] succeeds on every buffer, and
    [base64ToArrayBuffer] of its result is the original buffer. *)
Theorem base64_roundtrip (b : list byte) :
  exists s, arrayBufferToBase64 b = inr s /\ base64ToArrayBuffer s = inr b.
Proof.
  exists (b64_encode (map byte_to_Z b)). split.
  - apply arrayBufferToBase64_ok.
  - unfold base64ToArrayBuffer.
    rewrite atob_b64_encode by apply octets_of_bytes.
    f_equal. rewrite map_map. rewrite <- (map_id b) at 2.
    apply map_ext. intros x. apply byte_of_to_Z.
Qed.

Lemma get_length_Arr (l : list jsval) :
  get_prop (Arr l) (js "length") = inr (Num (Z.of_nat (length l))).
Proof.
  unfold get_prop. now rewrite decide_True.
Qed.

Lemma authenticate_empty (P : Platform) (self : WebAuthnAuth) rnd get (w : state) :
  isSupported P = true ->
  JSON_parse P (stored_text (localStorage w !! credentials_key)) = Some (Arr []) ->
  authenticate P self rnd get w
  = (inl NoCredentialsError,
     with_console (console_error (js "WebAuthn authentication error:") NoCredentialsError) w).
Proof.
  intros Hs Hparse. unfold authenticate. rewrite Hs. cbn [negb].
  unfold try_catch, getStoredCredentials, bind at 1 2, localStorage_getItem, gets, parse.
  rewrite Hparse. unfold ret at 1. unfold bind at 1, lift at 1.
  rewrite get_length_Arr. reflexivity.
Qed.

(** C8, as the code has it: with an empty list of stored credentials,
    [authenticate] fails before any challenge is drawn and before the
    authenticator is asked; the error is [NoCredentialsError] where the
    platform supports WebAuthn, and the not-supported error elsewhere. *)
Theorem authenticate_without_credentials (P : Platform) (self : WebAuthnAuth)
    (rnd : nat -> byte)
    (get : PublicKeyCredentialRequestOptions -> exn + AssertionCredential)
    (w : state) :
  JSON_parse P (stored_text (localStorage w !! credentials_key)) = Some (Arr []) ->
  let r := authenticate P self rnd get w in
  fst r = inl (if isSupported P then NoCredentialsError else NotSupported)
  /\ calls (snd r) = calls w.
Proof.
  intros Hparse. destruct (isSupported P) eqn:Hs.
  - rewrite authenticate_empty by assumption. split; reflexivity.
  - unfold authenticate. rewrite Hs. split; reflexivity.
Qed.

Lemma authenticate_without_credentials_witness :
  let r := authenticate (Example.browser true) Example.passkeys Example.zeros
             Example.no_authenticator Example.fresh in
  fst r = inl NoCredentialsError /\ calls (snd r) = calls Example.fresh.
Proof.
  apply (authenticate_without_credentials (Example.browser true)). reflexivity.
Defined.

(** C8 as stated fails where the platform has no WebAuthn: the credential
    list is empty, yet the error is not [NoCredentialsError]. *)
Lemma no_credentials_error_needs_support :
  let P := Example.browser false in
  let w := Example.fresh in
  JSON_parse P (stored_text (localStorage w !! credentials_key)) = Some (Arr [])
  /\ authenticate P Example.passkeys Example.zeros Example.no_authenticator w
     = (inl NotSupported, w)
  /\ NotSupported <> NoCredentialsError.
Proof.
  repeat split. discriminate.
Qed.

(** What [register] adds to the trace of platform calls. *)
Lemma register_calls (P : Platform) self rnd create now username w :
  new_calls (register P self rnd create now username) w
  = if isSupported P
    then [call_getRandomValues 32;
          call_credentials_create
            (creationOptions self (map rnd (seq 0 32)) (generateUserId username) username)]
    else [].
Proof.
  unfold new_calls, register. destruct (isSupported P); cbn [negb].
  - erewrite try_catch_bind_ret by reflexivity.
    erewrite try_catch_bind_ret by reflexivity.
    match goal with
    | |- context [try_catch ?b ?h ?w0] =>
        assert (Hp : preserves calls (try_catch b h))
    end.
    { unfold storeCredential, parse, localStorage_getItem, localStorage_setItem, log.
      preserve. }
    rewrite Hp. cbn [calls with_call]. rewrite <- app_assoc.
    now rewrite drop_app_length.
  - cbn. now rewrite drop_all.
Qed.

(** C9: the user handle handed to the authenticator depends on the
    username alone. Whatever the instance, its configuration, the entropy,
    the clock, the stored data and the authenticator's answer, two
    [register] calls for one username show the authenticator the same
    user-handle bytes, the UTF-8 encoding of the username. *)
Theorem user_handle_deterministic (P1 P2 : Platform) (self1 self2 : WebAuthnAuth)
    (rnd1 rnd2 : nat -> byte)
    (create1 create2 : PublicKeyCredentialCreationOptions -> exn + AttestationCredential)
    (now1 now2 : Z) (w1 w2 : state) (username : jsstring)
    (o1 o2 : PublicKeyCredentialCreationOptions) :
  call_credentials_create o1 ∈ new_calls (register P1 self1 rnd1 create1 now1 username) w1 ->
  call_credentials_create o2 ∈ new_calls (register P2 self2 rnd2 create2 now2 username) w2 ->
  co_user_id o1 = co_user_id o2 /\ co_user_id o1 = generateUserId username.
Proof.
  rewrite !register_calls. intros H1 H2.
  assert (E : forall P self rnd o,
             call_credentials_create o
               ∈ (if isSupported P
                  then [call_getRandomValues 32;
                        call_credentials_create
                          (creationOptions self (map rnd (seq 0 32))
                             (generateUserId username) username)]
                  else []) ->
             co_user_id o = generateUserId username).
  { intros P self rnd o H. destruct (isSupported P).
    - apply elem_of_cons in H as [H | H]; [discriminate|].
      apply list_elem_of_singleton in H. injection H as ->. reflexivity.
    - now apply elem_of_nil in H. }
  rewrite (E _ _ _ _ H1), (E _ _ _ _ H2). split; reflexivity.
Qed.

Lemma user_handle_deterministic_witness :
  let u := js "ana" in
  let o1 := creationOptions Example.passkeys (map Example.zeros (seq 0 32))
              (generateUserId u) u in
  let o2 := creationOptions (constructor (js "localhost")) (map Example.ones (seq 0 32))
              (generateUserId u) u in
  co_user_id o1 = co_user_id o2 /\ co_user_id o1 = generateUserId u.
Proof.
  intros u o1 o2.
  apply (user_handle_deterministic (Example.browser true) (Example.browser true)
           Example.passkeys (constructor (js "localhost"))
           Example.zeros Example.ones Example.no_attestation Example.no_attestation
           0 7 Example.fresh Example.fresh u o1 o2).
  - vm_compute. apply list_elem_of_further, list_elem_of_here.
  - vm_compute. apply list_elem_of_further, list_elem_of_here.
Defined.

End WebAuthnFacts.

(** ** OAuth2Auth *)

Module OAuth2Facts.
Import Encoding Encoding_aux Base64Facts OAuth2.

Lemma replace_all_cons (c : Z) (r : jsstring) (x : Z) (s : jsstring) :
  replace_all c r (x :: s) = (if x =? c then r else [x]) ++ replace_all c r s.
Proof. reflexivity. Qed.

Lemma url_safe_cons (x : Z) (rest : jsstring) :
  url_safe (x :: rest)
  = (if x =? 43 then [45] else if x =? 47 then [95] else if x =? 61 then [] else [x])
    ++ url_safe rest.
Proof.
  unfold url_safe. change (js "_") with [95]. change (js "-") with [45].
  rewrite (replace_all_cons 43 [45] x).
  destruct (Z.eqb_spec x 43) as [-> | N1]; cbn [app].
  - rewrite (replace_all_cons 47 [95] 45). cbn [Z.eqb Pos.eqb app].
    rewrite (replace_all_cons 61 [] 45). reflexivity.
  - rewrite (replace_all_cons 47 [95] x).
    destruct (Z.eqb_spec x 47) as [-> | N2]; cbn [app].
    + rewrite (replace_all_cons 61 [] 95). reflexivity.
    + rewrite (replace_all_cons 61 [] x). destruct (Z.eqb_spec x 61); reflexivity.
Qed.

Lemma url_safe_char (i : Z) (rest : jsstring) :
  sextet i -> url_safe (b64_char i :: rest) = b64url_char i :: url_safe rest.
Proof.
  intros H. rewrite url_safe_cons. unfold b64url_char.
  b64_cases i H; zbool; reflexivity.
Qed.

Lemma url_safe_pad (rest : jsstring) : url_safe (pad :: rest) = url_safe rest.
Proof. reflexivity. Qed.

(** What the source computes from the digest is the document's base64url. *)
Lemma url_safe_b64_encode (data : list byte) :
  url_safe (b64_encode (map byte_to_Z data)) = base64url data.
Proof.
  induction data as [| a | a b | a b c l IH] using list_ind3;
    cbn [map b64_encode base64url]; cbv zeta.
  - reflexivity.
  - pose proof (byte_to_Z_range a).
    rewrite !url_safe_char by (unfold sextet; Z.div_mod_to_equations; lia).
    now rewrite !url_safe_pad.
  - pose proof (byte_to_Z_range a). pose proof (byte_to_Z_range b).
    rewrite !url_safe_char by (unfold sextet; Z.div_mod_to_equations; lia).
    now rewrite !url_safe_pad.
  - pose proof (byte_to_Z_range a). pose proof (byte_to_Z_range b).
    pose proof (byte_to_Z_range c).
    rewrite !url_safe_char by (unfold sextet; Z.div_mod_to_equations; lia).
    now rewrite IH.
Qed.

Lemma hex_digit_char (d : Z) : 0 <= d < 16 -> hex_char (hex_digit d).
Proof.
  unfold hex_char, hex_digit. intros H. destruct (Z.ltb_spec d 10); lia.
Qed.

Lemma hex_byte (b : byte) :
  padStart0 2 (toString16 b)
  = [hex_digit (byte_to_Z b / 16); hex_digit (byte_to_Z b mod 16)].
Proof.
  unfold toString16. pose proof (byte_to_Z_range b) as R.
  destruct (Z.ltb_spec (byte_to_Z b) 16).
  - rewrite Z.div_small, Z.mod_small by lia. reflexivity.
  - reflexivity.
Qed.

Lemma hex_of_bytes_length (array : list byte) :
  length (hex_of_bytes array) = (2 * length array)%nat.
Proof.
  unfold hex_of_bytes. induction array as [|b array IH]; [reflexivity|].
  cbn [map concat]. rewrite length_app, IH, hex_byte. cbn [length]. lia.
Qed.

Lemma hex_of_bytes_chars (array : list byte) : Forall hex_char (hex_of_bytes array).
Proof.
  unfold hex_of_bytes. induction array as [|b array IH]; [constructor|].
  cbn [map concat]. rewrite hex_byte. pose proof (byte_to_Z_range b).
  repeat (constructor; [apply hex_digit_char; Z.div_mod_to_equations; lia|]).
  exact IH.
Qed.

Lemma hex_char_unreserved (c : Z) : hex_char c -> unreserved c = true.
Proof.
  unfold hex_char, unreserved. intros H. zbool; reflexivity.
Qed.

Lemma TextEncoder_ascii (s : jsstring) :
  Forall (fun c => 0 <= c < 128) s -> TextEncoder_encode s = map byte_of_Z s.
Proof.
  induction 1 as [|c s Hc _ IH]; [reflexivity|].
  cbn [TextEncoder_encode map].
  destruct (Z.ltb_spec c 128); [|lia]. now rewrite IH.
Qed.

Lemma generatePKCE_ok (P : Platform) (rnd : nat -> byte) (w : state) :
  generatePKCE P rnd w
  = (inr {| codeVerifier := hex_of_bytes (map rnd (seq 0 32));
            codeChallenge :=
              base64url (digest_SHA256 P
                           (TextEncoder_encode (hex_of_bytes (map rnd (seq 0 32))))) |},
     with_call (call_getRandomValues 32) w).
Proof.
  unfold generatePKCE, getRandomValues, record_call, bind, modify, ret.
  unfold fromCharCodes. rewrite btoa_bytes. unfold lift.
  rewrite <- url_safe_b64_encode. reflexivity.
Qed.

(** C4: every pair [generatePKCE] returns has
    [codeChallenge = base64url(SHA-256(codeVerifier))], the digest being
    taken over the verifier's characters as bytes, and a [codeVerifier] of
    between 43 and 128 unreserved characters (64 hexadecimal digits). *)
Theorem pkce_pair (P : Platform) (rnd : nat -> byte) (w : state) :
  exists pk w',
    generatePKCE P rnd w = (inr pk, w')
    /\ codeChallenge pk
       = base64url (digest_SHA256 P (TextEncoder_encode (codeVerifier pk)))
    /\ TextEncoder_encode (codeVerifier pk) = map byte_of_Z (codeVerifier pk)
    /\ (43 <= length (codeVerifier pk) <= 128)%nat
    /\ Forall (fun c => unreserved c = true) (codeVerifier pk).
Proof.
  eexists _, _. split; [apply generatePKCE_ok|]. cbn [codeVerifier codeChallenge].
  split; [reflexivity|]. split; [|split].
  - apply TextEncoder_ascii.
    eapply Forall_impl; [apply hex_of_bytes_chars|].
    unfold hex_char. intros c Hc. cbv beta. lia.
  - rewrite hex_of_bytes_length, length_map, length_seq. lia.
  - eapply Forall_impl; [apply hex_of_bytes_chars|].
    intros c Hc. now apply hex_char_unreserved.
Qed.

Lemma keys_distinct :
  state_key <> verifier_key /\ state_key <> provider_key /\ verifier_key <> provider_key.
Proof. repeat split; discriminate. Qed.

Lemma handleCallback_rejects (P : Platform) (self : OAuth2Auth)
    (params : jsstring -> option jsstring) (now : Z) (w : state) :
  params (js "state") <> localStorage w !! state_key ->
  handleCallback P self params now w
  = (inl match present (params (js "error")) with
         | Some e => ProviderError e (params (js "error_description"))
         | None => CsrfMismatchError
         end, w).
Proof.
  intros H. unfold handleCallback. destruct (present _); [reflexivity|].
  unfold bind, getStoredState, localStorage_getItem, gets.
  rewrite bool_decide_eq_false_2 by assumption. reflexivity.
Qed.

(** C1, as the code has it: a callback whose [state] parameter differs from
    the stored state (a parameter against no stored state included) is
    rejected without any effect, so the token exchange does not run. The
    error is [CsrfMismatchError] unless the callback carries an [error]
    parameter, which is reported first as a [ProviderError]. *)
Theorem csrf_enforced (P : Platform) (self : OAuth2Auth)
    (params : jsstring -> option jsstring) (now : Z) (w : state) :
  params (js "state") <> localStorage w !! state_key ->
  let r := handleCallback P self params now w in
  fst r = inl match present (params (js "error")) with
              | Some e => ProviderError e (params (js "error_description"))
              | None => CsrfMismatchError
              end
  /\ snd r = w
  /\ (exchange_invoked (snd r) -> exchange_invoked w).
Proof.
  intros H. rewrite handleCallback_rejects by assumption.
  repeat split. intros Hx. exact Hx.
Qed.

Lemma csrf_enforced_witness :
  let r := handleCallback (Example.browser true) Example.no_providers (Example.wrong_state false) 0
             Example.pending_right in
  fst r = inl CsrfMismatchError /\ snd r = Example.pending_right
  /\ (exchange_invoked (snd r) -> exchange_invoked Example.pending_right).
Proof.
  apply (csrf_enforced (Example.browser true) Example.no_providers (Example.wrong_state false) 0
           Example.pending_right).
  vm_compute. discriminate.
Defined.

(** C1 as stated fails for a callback that carries an [error] parameter:
    the states differ, yet the error is the provider's, not
    [CsrfMismatchError]. *)
Lemma provider_error_precedes_csrf :
  let params := Example.wrong_state true in
  params (js "state") <> localStorage Example.pending_right !! state_key
  /\ fst (handleCallback (Example.browser true) Example.no_providers params 0 Example.pending_right)
     = inl (ProviderError (js "access_denied") None)
  /\ ProviderError (js "access_denied") None <> CsrfMismatchError.
Proof.
  repeat split.
  - vm_compute. discriminate.
  - vm_compute. discriminate.
Qed.

(** The state a started authorization leaves behind. *)
Lemma authenticate_started (P : Platform) (self : OAuth2Auth)
    (rnd_state rnd_pkce : nat -> byte) (providerName : jsstring)
    (provider : Provider) (w : state) :
  providers self !! providerName = Some provider ->
  exists w',
    authenticate P self rnd_state rnd_pkce providerName w = (inr tt, w')
    /\ localStorage w'
       = <[provider_key := providerName]>
           (<[verifier_key := hex_of_bytes (map rnd_pkce (seq 0 32))]>
              (<[state_key := hex_of_bytes (map rnd_state (seq 0 32))]>
                 (localStorage w)))
    /\ currentProvider w' = Some providerName.
Proof.
  intros Hp. unfold authenticate. rewrite Hp.
  unfold bind at 1. unfold modify at 1. unfold bind at 1.
  unfold generateState at 1. unfold bind at 1.
  unfold getRandomValues at 1. unfold bind at 1.
  unfold record_call at 1, modify at 1, ret at 1, ret at 1.
  unfold bind at 1. unfold storeState at 1, localStorage_setItem at 1, modify at 1.
  unfold bind at 1. rewrite generatePKCE_ok.
  unfold bind, storeCodeVerifier, localStorage_setItem, set_location_href, modify.
  eexists. split; [reflexivity|]. split; reflexivity.
Qed.

(** C6: a second authorization is not rejected; it replaces the single
    stored state, code verifier and provider, so that a later callback is
    accepted for the second state only and hands the second provider to the
    exchange. *)
Theorem second_authorization_supersedes (P : Platform) (self : OAuth2Auth)
    (rs1 rp1 rs2 rp2 : nat -> byte) (p1 p2 : jsstring) (w : state) :
  is_Some (providers self !! p2) ->
  let w1 := snd (authenticate P self rs1 rp1 p1 w) in
  let r2 := authenticate P self rs2 rp2 p2 w1 in
  let w2 := snd r2 in
  let s2 := hex_of_bytes (map rs2 (seq 0 32)) in
  let v2 := hex_of_bytes (map rp2 (seq 0 32)) in
  fst r2 = inr tt
  /\ localStorage w2 !! state_key = Some s2
  /\ localStorage w2 !! verifier_key = Some v2
  /\ localStorage w2 !! provider_key = Some p2
  /\ (forall params now,
        present (params (js "error")) = None ->
        params (js "state") <> Some s2 ->
        handleCallback P self params now w2 = (inl CsrfMismatchError, w2))
  /\ (forall params now,
        present (params (js "error")) = None ->
        params (js "state") = Some s2 ->
        exists res w3,
          handleCallback P self params now w2 = (inr res, w3)
          /\ cb_provider res = p2
          /\ localStorage w3 !! state_key = None
          /\ localStorage w3 !! verifier_key = None
          /\ localStorage w3 !! provider_key = None).
Proof.
  intros [prov Hp] w1 r2 w2 s2 v2.
  destruct (authenticate_started P self rs2 rp2 p2 prov w1 Hp) as (w' & Hr & Hls & _).
  destruct keys_distinct as (Hsv & Hsp & Hvp).
  assert (Hw2 : w2 = w') by (unfold w2, r2; now rewrite Hr).
  assert (Hs : localStorage w2 !! state_key = Some s2).
  { rewrite Hw2, Hls. rewrite lookup_insert_ne by congruence.
    rewrite lookup_insert_ne by congruence. apply lookup_insert_eq. }
  assert (Hv : localStorage w2 !! verifier_key = Some v2).
  { rewrite Hw2, Hls. rewrite lookup_insert_ne by congruence. apply lookup_insert_eq. }
  assert (Hpk : localStorage w2 !! provider_key = Some p2).
  { rewrite Hw2, Hls. apply lookup_insert_eq. }
  split; [unfold r2; now rewrite Hr|].
  do 3 (split; [assumption|]). split.
  - intros params now He Hne.
    rewrite handleCallback_rejects by (rewrite Hs; exact Hne).
    now rewrite He.
  - intros params now He Heq. unfold handleCallback. rewrite He.
    unfold bind at 1, getStoredState, localStorage_getItem at 1, gets at 1.
    rewrite Hs, Heq. rewrite bool_decide_eq_true_2 by reflexivity. cbn [negb].
    unfold bind at 1, localStorage_getItem at 1, gets at 1. rewrite Hpk, Hp.
    eexists _, _. split; [reflexivity|]. cbn [cb_provider snd localStorage with_localStorage
      with_console]. split; [reflexivity|].
    split; [|split].
    + rewrite lookup_delete_ne by congruence. rewrite lookup_delete_ne by congruence.
      apply lookup_delete_eq.
    + rewrite lookup_delete_ne by congruence. apply lookup_delete_eq.
    + apply lookup_delete_eq.
Qed.

Lemma second_authorization_supersedes_witness :
  let self := Example.google_only in
  let w1 := snd (authenticate (Example.browser true) self Example.zeros Example.zeros
                   (js "google") Example.fresh) in
  let r2 := authenticate (Example.browser true) self Example.ones Example.ones
              (js "google") w1 in
  is_Some (providers self !! js "google")
  /\ fst r2 = inr tt
  /\ localStorage (snd r2) !! state_key = Some (hex_of_bytes (map Example.ones (seq 0 32)))
  /\ localStorage (snd r2) !! provider_key = Some (js "google").
Proof.
  intros self w1 r2.
  assert (H : is_Some (providers self !! js "google")).
  { exists Example.google. apply lookup_singleton_eq. }
  split; [exact H|].
  pose proof (second_authorization_supersedes (Example.browser true) self
                Example.zeros Example.zeros Example.ones Example.ones
                (js "google") (js "google") Example.fresh H) as X.
  cbv zeta in X. destruct X as (X1 & X2 & _ & X4 & _).
  split; [exact X1|]. split; [exact X2|exact X4].
Defined.

End OAuth2Facts.

(** ** AuthManager *)

Module ManagerFacts.
Import Manager.

(** *** Sessions *)

Lemma logout_run (self : AuthManager) (w : state) :
  logout self w
  = (inr tt, with_href (js "/index.html") (with_localStorage (delete (sessionKey self)) w)).
Proof. reflexivity. Qed.

(** C2, as the code has it: [checkSession] answers [false] and removes the
    stored record (sending the page to [/index.html]) for a session whose
    expiry is strictly before the current time; [getSession] has no expiry
    check: it returns the stored session and leaves the store as it is. *)
Theorem expired_session (P : Platform) (self : AuthManager) (now expiry : Z)
    (text : jsstring) (sessionData : jsval) (w : state) :
  localStorage w !! sessionKey self = Some text ->
  text <> [] ->
  JSON_parse P text = Some sessionData ->
  get_prop sessionData (js "expiry") = inr (Num expiry) ->
  (expiry < now ->
   checkSession P self now w
   = (inr false,
      with_href (js "/index.html") (with_localStorage (delete (sessionKey self)) w))
   /\ localStorage (snd (checkSession P self now w)) !! sessionKey self = None)
  /\ getSession P self w = (inr sessionData, w).
Proof.
  intros Hget Hne Hparse Hexp.
  assert (Hpres : present (Some text) = Some text) by (destruct text; [easy|reflexivity]).
  split.
  - intros Hlt.
    assert (E : checkSession P self now w
                = (inr false,
                   with_href (js "/index.html")
                     (with_localStorage (delete (sessionKey self)) w))).
    { unfold checkSession, bind at 1, localStorage_getItem, gets.
      rewrite Hget, Hpres.
      unfold try_catch, bind at 1, WebAuthn.parse. rewrite Hparse.
      unfold ret at 1, bind at 1, lift. rewrite Hexp.
      unfold js_lt_num. rewrite (proj2 (Z.ltb_lt expiry now) Hlt).
      unfold bind. rewrite logout_run. reflexivity. }
    rewrite E. split; [reflexivity|]. cbn [snd localStorage with_href with_localStorage].
    apply lookup_delete_eq.
  - unfold getSession, bind, localStorage_getItem, gets.
    rewrite Hget, Hpres, Hparse. reflexivity.
Qed.

Lemma expired_session_witness :
  let self := Example.manager true in
  let w := Example.with_session "5" in
  checkSession (Example.browser true) self 10 w
  = (inr false,
     with_href (js "/index.html") (with_localStorage (delete (sessionKey self)) w))
  /\ getSession (Example.browser true) self w = (inr (Example.session_value 5), w).
Proof.
  intros self w.
  destruct (expired_session (Example.browser true) self 10 5 (Example.session_text "5")
              (Example.session_value 5) w) as [A B].
  - apply lookup_insert_eq.
  - discriminate.
  - reflexivity.
  - reflexivity.
  - split; [apply A; lia | exact B].
Defined.

(** C2 as stated fails twice: [getSession] returns an expired session and
    keeps it stored, and [checkSession] accepts a session whose expiry
    equals the current time. *)
Lemma stale_session_still_read :
  let P := Example.browser true in
  let self := Example.manager true in
  let r := getSession P self (Example.with_session "5") in
  (5 <= 10
   /\ fst r = inr (Example.session_value 5)
   /\ fst r <> inr Null
   /\ localStorage (snd r) !! sessionKey self = Some (Example.session_text "5"))
  /\ (10 <= 10
      /\ checkSession P self 10 (Example.with_session "10")
         = (inr true, Example.with_session "10")).
Proof.
  repeat split; try lia. discriminate.
Qed.

(** *** The rate limiter *)

Lemma incrementRateLimit_run (self : AuthManager) (now : Z) (method : jsstring) (w : state) :
  rateLimit_enabled self = true ->
  incrementRateLimit self now method w
  = (inr tt,
     with_rateLimiter
       (insert (key_of method)
          {| count := count (entry_or_fresh now (rateLimiter w !! key_of method)) + 1;
             timestamp := timestamp (entry_or_fresh now (rateLimiter w !! key_of method)) |})
       w).
Proof.
  intros H. unfold incrementRateLimit. rewrite H. reflexivity.
Qed.

Lemma checkRateLimit_expired (self : AuthManager) (now win : Z) (method : jsstring)
    (a : attempts) (w : state) :
  rateLimit_enabled self = true ->
  windowMs self = Some win ->
  rateLimiter w !! key_of method = Some a ->
  now - timestamp a > win ->
  checkRateLimit self now method w
  = (inr true, with_rateLimiter (delete (key_of method)) w).
Proof.
  intros He Hw Ha Hgt. unfold checkRateLimit. rewrite He. cbn [negb].
  unfold bind at 1, gets. rewrite Ha, Hw. cbn [entry_or_fresh gt_opt].
  rewrite (proj2 (Z.gtb_gt _ _) Hgt). reflexivity.
Qed.

Lemma checkRateLimit_within (self : AuthManager) (now win m : Z) (method : jsstring)
    (w : state) :
  rateLimit_enabled self = true ->
  windowMs self = Some win ->
  maxAttempts self = Some m ->
  let e := entry_or_fresh now (rateLimiter w !! key_of method) in
  now - timestamp e <= win ->
  checkRateLimit self now method w = (inr (count e <? m), w).
Proof.
  intros He Hw Hm e Hle. unfold checkRateLimit. rewrite He. cbn [negb].
  unfold bind at 1, gets. fold e. rewrite Hw, Hm. cbn [gt_opt lt_opt].
  replace (now - timestamp e >? win) with false; [reflexivity|].
  symmetry. rewrite Z.gtb_ltb. apply Z.ltb_ge. exact Hle.
Qed.

(** C3, as the code has it: with the limiter enabled, recording a failure
    creates the entry with count 1 and the current time, or adds one to the
    count of the entry that exists and keeps its window start, whatever the
    age of that entry. Expired windows are cleared by [checkRateLimit]: a
    failure recorded after the check that found the window expired starts
    again from count 1 with a fresh window start. *)
Theorem failure_recorded (self : AuthManager) (now : Z) (method : jsstring) (w : state) :
  rateLimit_enabled self = true ->
  rateLimiter (snd (incrementRateLimit self now method w)) !! key_of method
  = Some match rateLimiter w !! key_of method with
         | Some a => {| count := count a + 1; timestamp := timestamp a |}
         | None => {| count := 1; timestamp := now |}
         end
  /\ (forall a win later,
        rateLimiter w !! key_of method = Some a ->
        windowMs self = Some win ->
        now - timestamp a > win ->
        let c := checkRateLimit self now method w in
        fst c = inr true
        /\ rateLimiter (snd c) !! key_of method = None
        /\ rateLimiter (snd (incrementRateLimit self later method (snd c))) !! key_of method
           = Some {| count := 1; timestamp := later |}).
Proof.
  intros He. split.
  - rewrite incrementRateLimit_run by assumption.
    cbn [snd rateLimiter with_rateLimiter]. rewrite lookup_insert_eq.
    destruct (rateLimiter w !! key_of method); reflexivity.
  - intros a win later Ha Hw Hgt c. unfold c.
    rewrite (checkRateLimit_expired self now win method a w) by assumption.
    cbn [fst snd]. split; [reflexivity|].
    assert (Hnone : rateLimiter (with_rateLimiter (delete (key_of method)) w)
                      !! key_of method = None) by apply lookup_delete_eq.
    split; [exact Hnone|].
    rewrite incrementRateLimit_run by assumption.
    cbn [snd]. rewrite Hnone. cbn [rateLimiter with_rateLimiter].
    now rewrite lookup_insert_eq.
Qed.

Lemma failure_recorded_witness :
  let self := Example.manager true in
  rateLimiter (snd (incrementRateLimit self 7 (js "local") Example.fresh))
    !! key_of (js "local")
  = Some {| count := 1; timestamp := 7 |}.
Proof.
  intros self.
  exact (proj1 (failure_recorded self 7 (js "local") Example.fresh eq_refl)).
Defined.

(** C3 as stated fails on [incrementRateLimit]: an entry whose window has
    expired (first failure at 0, now 1000000, window 900000) has its stale
    count incremented from 3 to 4 and keeps its old window start. *)
Lemma stale_counter_incremented :
  let self := Example.manager true in
  let w := Example.three_failures in
  windowMs self = Some 900000
  /\ rateLimiter w !! key_of (js "local") = Some {| count := 3; timestamp := 0 |}
  /\ 1000000 - 0 > 900000
  /\ rateLimiter (snd (incrementRateLimit self 1000000 (js "local") w)) !! key_of (js "local")
     = Some {| count := 4; timestamp := 0 |}
  /\ {| count := 4; timestamp := 0 |} <> {| count := 1; timestamp := 1000000 |}.
Proof.
  intros self w. split; [reflexivity|].
  split; [apply lookup_insert_eq|]. split; [lia|]. split; [|discriminate].
  rewrite incrementRateLimit_run by reflexivity.
  cbn [snd rateLimiter with_rateLimiter]. rewrite lookup_insert_eq.
  unfold w, Example.three_failures. cbn [rateLimiter with_rateLimiter].
  rewrite lookup_insert_eq. reflexivity.
Qed.

(** *** [authenticate] *)

(** No strategy touches the limiter. *)
Lemma dispatch_keeps_rateLimiter (P : Platform) (self : AuthManager) (i : Inputs)
    (method : jsstring) (credentials : option Credentials) :
  preserves rateLimiter (dispatch P self i method credentials).
Proof.
  unfold dispatch, authenticateLocal, authenticateWebAuthn, authenticateOAuth2,
    WebAuthn.authenticate, WebAuthn.getStoredCredentials, WebAuthn.parse,
    WebAuthn.generateChallenge,
    OAuth2.authenticate, OAuth2.generateState, OAuth2.generatePKCE,
    OAuth2.storeState, OAuth2.storeCodeVerifier,
    getRandomValues, record_call, log, localStorage_getItem, localStorage_setItem,
    set_location_href.
  preserve.
Qed.

(** A failing [try] block failed in its strategy, with the limiter as the
    check left it. *)
Lemma attempt_failed (P : Platform) (self : AuthManager) (i : Inputs) (later : Z)
    (method : jsstring) (credentials : option Credentials) (w w' : state) (e : exn) :
  attempt P self i later method credentials w = (inl e, w') ->
  rateLimiter w' = rateLimiter w.
Proof.
  unfold attempt, bind at 1. intros H.
  pose proof (dispatch_keeps_rateLimiter P self i method credentials w) as Hd.
  destruct (dispatch P self i method credentials w) as [[e' | res] w1]; cbn [snd] in Hd.
  - injection H as _ <-. exact Hd.
  - exfalso. revert H.
    unfold bind, resetRateLimit, modify, createSession, localStorage_setItem, ret.
    destruct (success res); discriminate.
Qed.

Lemma authenticate_run (P : Platform) (self : AuthManager) (i : Inputs) (now later : Z)
    (method : jsstring) (credentials : option Credentials) (w : state) :
  authenticate P self i now later method credentials w
  = match checkRateLimit self now method w with
    | (inr true, w1) =>
        match attempt P self i later method credentials w1 with
        | (inl e, w2) => (inl e, snd (incrementRateLimit self later method w2))
        | r => r
        end
    | (inr false, w1) => (inl RateLimitedError, w1)
    | (inl e, w1) => (inl e, w1)
    end.
Proof.
  unfold authenticate, bind at 1.
  destruct (checkRateLimit self now method w) as [[e | [|]] w1]; cbn [negb]; try reflexivity.
  unfold try_catch.
  destruct (attempt P self i later method credentials w1) as [[e | res] w2]; [|reflexivity].
  unfold bind, incrementRateLimit.
  destruct (rateLimit_enabled self); reflexivity.
Qed.

Lemma checkRateLimit_denies (self : AuthManager) (now : Z) (method : jsstring) (w : state) :
  fst (checkRateLimit self now method w) = inr false ->
  checkRateLimit self now method w = (inr false, w).
Proof.
  unfold checkRateLimit. destruct (rateLimit_enabled self); cbn [negb]; [|discriminate].
  unfold bind, gets, modify, ret.
  destruct (gt_opt _ _); [discriminate|].
  cbn [fst]. intros H. now rewrite H.
Qed.

(** C5, as the code has it: with the limiter enabled, a call that the
    limiter denies fails with [RateLimitedError] and changes nothing, in
    particular not the failure count; any other failure of the call is the
    error its strategy threw, unmodified, and one failure has been added to
    the method's entry by the time it is rethrown. *)
Theorem failure_counted (P : Platform) (self : AuthManager) (i : Inputs) (now later : Z)
    (method : jsstring) (credentials : option Credentials) (w : state) :
  rateLimit_enabled self = true ->
  let c := checkRateLimit self now method w in
  let r := authenticate P self i now later method credentials w in
  (fst c = inr false -> r = (inl RateLimitedError, w))
  /\ (fst c = inr true ->
      forall e,
        fst r = inl e ->
        let before := entry_or_fresh later (rateLimiter (snd c) !! key_of method) in
        (exists w2, attempt P self i later method credentials (snd c) = (inl e, w2))
        /\ rateLimiter (snd r) !! key_of method
           = Some {| count := count before + 1; timestamp := timestamp before |}).
Proof.
  intros He c r. unfold r. rewrite authenticate_run. split.
  - intros Hc. apply checkRateLimit_denies in Hc. now rewrite Hc.
  - intros Hc e. unfold c in *.
    destruct (checkRateLimit self now method w) as [[e' | [|]] w1]; try discriminate.
    cbn [snd] in *.
    destruct (attempt P self i later method credentials w1) as [[e2 | res] w2] eqn:Ha;
      [|discriminate].
    cbn [fst snd]. intros [= <-]. split; [now exists w2|].
    rewrite incrementRateLimit_run by assumption.
    cbn [snd rateLimiter with_rateLimiter]. rewrite lookup_insert_eq.
    now rewrite (attempt_failed _ _ _ _ _ _ _ _ _ Ha).
Qed.

Lemma failure_counted_witness :
  let r := authenticate (Example.browser true) (Example.manager true) Example.inputs 0 1
             (js "local") Example.wrong_password Example.fresh in
  fst r = inl InvalidCredentialsError
  /\ rateLimiter (snd r) !! key_of (js "local") = Some {| count := 1; timestamp := 1 |}.
Proof.
  split; [reflexivity|].
  exact (proj2 (proj2 (failure_counted (Example.browser true) (Example.manager true)
                         Example.inputs 0 1 (js "local") Example.wrong_password
                         Example.fresh eq_refl)
                  eq_refl InvalidCredentialsError eq_refl)).
Defined.

(** C5 as stated fails where the limiter is switched off: a failed call
    leaves no failure count behind. *)
Lemma failure_not_counted_when_disabled :
  let r := authenticate (Example.browser true) (Example.manager false) Example.inputs 0 1
             (js "local") Example.wrong_password Example.fresh in
  fst r = inl InvalidCredentialsError
  /\ InvalidCredentialsError <> RateLimitedError
  /\ rateLimiter (snd r) !! key_of (js "local") = None.
Proof.
  split; [reflexivity|]. split; [discriminate|]. reflexivity.
Qed.

(** *** Lockout *)

Section Lockout.
Import Scenario.
Context (P : Platform) (self : AuthManager) (method : jsstring) (win m : Z).
Hypothesis Henabled : rateLimit_enabled self = true.
Hypothesis Hwindow : windowMs self = Some win.
Hypothesis Hmax : maxAttempts self = Some m.

(** A failed call that the limiter let through adds one to the entry. *)
Lemma failed_attempt_counted (a : Attempt) (w : state) :
  let r := authenticate P self (inputs a) (started a) (settled a) method (credentials a) w in
  let seen := entry_or_fresh (started a) (rateLimiter w !! key_of method) in
  let kept := entry_or_fresh (settled a) (rateLimiter w !! key_of method) in
  started a - timestamp seen <= win ->
  count seen < m ->
  failed (fst r) ->
  rateLimiter (snd r) !! key_of method
  = Some {| count := count kept + 1; timestamp := timestamp kept |}.
Proof.
  intros r seen kept Hin Hlt [e Hfail]. unfold r in *. clear r.
  rewrite authenticate_run in *.
  rewrite (checkRateLimit_within self (started a) win m method w) in * by assumption.
  fold seen in Hfail |- *.
  rewrite (proj2 (Z.ltb_lt _ _) Hlt) in *.
  destruct (attempt P self (inputs a) (settled a) method (credentials a) w)
    as [[e' | res] w2] eqn:Ha; [|discriminate].
  rewrite incrementRateLimit_run by assumption.
  cbn [snd rateLimiter with_rateLimiter]. rewrite lookup_insert_eq.
  now rewrite (attempt_failed _ _ _ _ _ _ _ _ _ Ha).
Qed.

Lemma failures_accumulate (l : list Attempt) :
  forall (w : state) (c ts : Z),
    rateLimiter w !! key_of method = Some {| count := c; timestamp := ts |} ->
    c + Z.of_nat (length l) <= m ->
    Forall (fun a => started a - ts <= win) l ->
    Forall failed (fst (run P self method l w)) ->
    rateLimiter (snd (run P self method l w)) !! key_of method
    = Some {| count := c + Z.of_nat (length l); timestamp := ts |}.
Proof.
  induction l as [|a l IH]; intros w c ts Hentry Hroom Hin Hfail.
  - cbn [run snd length Z.of_nat]. now rewrite Z.add_0_r.
  - cbn [run] in *.
    pose proof (failed_attempt_counted a w) as Hstep. cbv zeta in Hstep.
    destruct (authenticate P self (inputs a) (started a) (settled a) method
                (credentials a) w) as [r w1].
    specialize (IH w1).
    destruct (run P self method l w1) as [rs w2].
    cbn [fst snd] in *.
    inversion Hfail as [|? ? Hr Hrs]; subst.
    inversion Hin as [|? ? Ha Hl]; subst.
    rewrite Hentry in Hstep. cbn [entry_or_fresh count timestamp] in Hstep.
    rewrite length_cons, Nat2Z.inj_succ in *.
    specialize (Hstep Ha ltac:(lia) Hr).
    rewrite (IH (c + 1) ts Hstep ltac:(lia) Hl Hrs). do 2 f_equal. lia.
Qed.

End Lockout.

(** C7: with the limiter enabled, [maxAttempts = 5] and
    [windowMs = 900000], five failed calls in a row for a method that had no
    entry, each started within the window opened by the first failure,
    leave the method locked: [checkRateLimit] answers [false] for as long
    as the window lasts. Once more than [windowMs] has passed since the
    window start, [checkRateLimit] answers [true] and removes the entry, and
    the next failure counts from one. *)
Theorem lockout_after_five_failures (P : Platform) (self : AuthManager)
    (method : jsstring) (first : Scenario.Attempt) (rest : list Scenario.Attempt)
    (w : state) :
  rateLimit (config self)
    = Some {| enabled := true; cfg_maxAttempts := Some 5; cfg_windowMs := Some 900000 |} ->
  rateLimiter w !! key_of method = None ->
  length rest = 4%nat ->
  Forall (fun a => Scenario.started a - Scenario.settled first <= 900000) rest ->
  let mgr := setupRateLimiting self in
  let outcome := Scenario.run P mgr method (first :: rest) w in
  let w5 := snd outcome in
  let opened := Scenario.settled first in
  Forall Scenario.failed (fst outcome) ->
  rateLimiter w5 !! key_of method = Some {| count := 5; timestamp := opened |}
  /\ (forall t, t - opened <= 900000 ->
        checkRateLimit mgr t method w5 = (inr false, w5))
  /\ (forall t, t - opened > 900000 ->
        let c := checkRateLimit mgr t method w5 in
        fst c = inr true
        /\ rateLimiter (snd c) !! key_of method = None
        /\ forall later,
             rateLimiter (snd (incrementRateLimit mgr later method (snd c))) !! key_of method
             = Some {| count := 1; timestamp := later |}).
Proof.
  intros Hcfg Hnone Hlen Hin mgr outcome w5 opened Hfail.
  assert (He : rateLimit_enabled mgr = true).
  { unfold mgr, setupRateLimiting, rateLimit_enabled. rewrite Hcfg. cbn. now rewrite Hcfg. }
  assert (Hw : windowMs mgr = Some 900000).
  { unfold mgr, setupRateLimiting. rewrite Hcfg. reflexivity. }
  assert (Hm : maxAttempts mgr = Some 5).
  { unfold mgr, setupRateLimiting. rewrite Hcfg. reflexivity. }
  assert (H5 : rateLimiter w5 !! key_of method = Some {| count := 5; timestamp := opened |}).
  { unfold w5, outcome in *. cbn [Scenario.run] in *.
    pose proof (failed_attempt_counted P mgr method 900000 5 He Hw Hm first w) as Hstep.
    cbv zeta in Hstep.
    destruct (authenticate P mgr (Scenario.inputs first) (Scenario.started first)
                (Scenario.settled first) method (Scenario.credentials first) w) as [r w1].
    pose proof (failures_accumulate P mgr method 900000 5 He Hw Hm rest w1 1 opened) as Hacc.
    destruct (Scenario.run P mgr method rest w1) as [rs w2].
    cbn [fst snd] in *.
    inversion Hfail as [|? ? Hr Hrs]; subst.
    rewrite Hnone in Hstep. cbn [entry_or_fresh count timestamp] in Hstep.
    specialize (Hstep ltac:(lia) ltac:(lia) Hr).
    rewrite Hlen in Hacc. apply Hacc; try assumption. lia. }
  split; [exact H5|]. split.
  - intros t Ht.
    rewrite (checkRateLimit_within mgr t 900000 5 method w5 He Hw Hm);
      rewrite H5; cbn [entry_or_fresh count timestamp]; [reflexivity | exact Ht].
  - intros t Ht c. unfold c.
    rewrite (checkRateLimit_expired mgr t 900000 method _ w5 He Hw H5) by exact Ht.
    cbn [fst snd]. split; [reflexivity|].
    assert (Hgone : rateLimiter (with_rateLimiter (delete (key_of method)) w5)
                      !! key_of method = None) by apply lookup_delete_eq.
    split; [exact Hgone|]. intros later.
    rewrite incrementRateLimit_run by assumption.
    cbn [snd]. rewrite Hgone. cbn [rateLimiter with_rateLimiter].
    now rewrite lookup_insert_eq.
Qed.

Lemma lockout_after_five_failures_witness :
  let mgr := Example.manager true in
  let w5 := snd (Scenario.run (Example.browser true) mgr (js "local")
                   (map Example.bad_login [0; 10; 20; 30; 40]) Example.fresh) in
  rateLimiter w5 !! key_of (js "local") = Some {| count := 5; timestamp := 1 |}
  /\ checkRateLimit mgr 50 (js "local") w5 = (inr false, w5)
  /\ fst (checkRateLimit mgr 900002 (js "local") w5) = inr true.
Proof.
  intros mgr w5.
  pose proof (lockout_after_five_failures (Example.browser true) (Example.constructed true)
                (js "local") (Example.bad_login 0) (map Example.bad_login [10; 20; 30; 40])
                Example.fresh eq_refl eq_refl eq_refl) as X.
  cbv zeta in X.
  destruct X as (X1 & X2 & X3).
  - repeat constructor; cbn; lia.
  - vm_compute. repeat (constructor; [eexists; reflexivity|]). constructor.
  - split; [exact X1|]. split.
    + apply X2. cbn. lia.
    + apply (X3 900002). cbn. lia.
Defined.

(** The scenario of the design document: after five wrong passwords the
    sixth call is refused by the limiter even with the right password. *)
Example sixth_call_refused :
  let mgr := Example.manager true in
  let w5 := snd (Scenario.run (Example.browser true) mgr (js "local")
                   (map Example.bad_login [0; 10; 20; 30; 40]) Example.fresh) in
  fst (authenticate (Example.browser true) mgr Example.inputs 50 51 (js "local")
         Example.right_password w5)
  = inl RateLimitedError
  /\ fst (authenticate (Example.browser true) mgr Example.inputs 50 51 (js "local")
            Example.right_password Example.fresh)
     = inr {| success := true; method := Some (js "local");
              user := Some (Obj [(js "username", Str (js "admin"));
                                 (js "displayName", Str (js "admin"))]) |}.
Proof. split; vm_compute; reflexivity. Qed.

End ManagerFacts.

(** * Further properties of the three classes *)

(** ** AuthManager: local login, sessions, page protection *)

Module SessionFacts.
Import Manager.

Lemma present_cases (v : option jsstring) :
  (exists c s, v = Some (c :: s) /\ present v = Some (c :: s))
  \/ ((v = None \/ v = Some []) /\ present v = None).
Proof.
  destruct v as [[|c s]|]; [right | left | right]; eauto.
Qed.

Lemma errors_differ : InvalidCredentialsError <> CredentialsRequired.
Proof. discriminate. Qed.

(** Local login succeeds exactly for a non-empty username and password that
    equal the configured demo credentials, and then reports that user; it
    asks for credentials exactly when they are missing or empty; and it
    never touches the state. *)
Theorem local_login_exact (self : AuthManager) (credentials : option Credentials)
    (w : state) :
  let r := authenticateLocal self credentials w in
  snd r = w
  /\ (forall res,
        fst r = inr res <->
        exists c u pw d,
          credentials = Some c
          /\ present (username c) = Some u /\ present (password c) = Some pw
          /\ demo_credentials (config self) = Some d
          /\ demo_username d = Some u /\ demo_password d = Some pw
          /\ res = {| success := true; method := Some (js "local");
                      user := Some (Obj [(js "username", Str u);
                                         (js "displayName", Str u)]) |})
  /\ (fst r = inl CredentialsRequired <->
      forall c, credentials = Some c ->
                present (username c) = None \/ present (password c) = None).
Proof.
  unfold authenticateLocal.
  destruct credentials as [c|]; cbn [fst snd throw].
  2:{ split; [reflexivity|]. split.
      - intros res. split; [discriminate|]. intros (c & ? & ? & ? & [=] & _).
      - split; [discriminate | reflexivity]. }
  destruct (present (username c)) as [u|] eqn:Hu.
  2:{ cbn [fst snd throw]. split; [reflexivity|]. split.
      - intros res. split; [discriminate|].
        intros (c' & ? & ? & ? & [= <-] & Hu' & _). congruence.
      - split; [intros _ c' [= <-]; now left | reflexivity]. }
  destruct (present (password c)) as [pw|] eqn:Hp.
  2:{ cbn [fst snd throw]. split; [reflexivity|]. split.
      - intros res. split; [discriminate|].
        intros (c' & ? & ? & ? & [= <-] & _ & Hp' & _). congruence.
      - split; [intros _ c' [= <-]; now right | reflexivity]. }
  assert (Hreq : ~ (forall c', Some c = Some c' ->
                     present (username c') = None \/ present (password c') = None)).
  { intros H. destruct (H c eq_refl); congruence. }
  destruct (demo_credentials (config self)) as [d|] eqn:Hd.
  2:{ cbn [fst snd throw]. split; [reflexivity|]. split.
      - intros res. split; [discriminate|].
        intros (? & ? & ? & ? & _ & _ & _ & [=] & _).
      - split; [intros [= E]; now apply errors_differ in E | intros H; now apply Hreq in H]. }
  destruct (bool_decide (Some u = demo_username d)) eqn:B1;
    [apply bool_decide_eq_true_1 in B1 | apply bool_decide_eq_false_1 in B1];
    cbn [andb].
  2:{ cbn [fst snd throw]. split; [reflexivity|]. split.
      - intros res. split; [discriminate|].
        intros (c' & u' & pw' & d' & [= <-] & Hu' & Hp' & [= <-] & Hdu & _). congruence.
      - split; [intros [= E]; now apply errors_differ in E | intros H; now apply Hreq in H]. }
  destruct (bool_decide (Some pw = demo_password d)) eqn:B2;
    [apply bool_decide_eq_true_1 in B2 | apply bool_decide_eq_false_1 in B2].
  2:{ cbn [fst snd throw]. split; [reflexivity|]. split.
      - intros res. split; [discriminate|].
        intros (c' & u' & pw' & d' & [= <-] & Hu' & Hp' & [= <-] & _ & Hdp & _). congruence.
      - split; [intros [= E]; now apply errors_differ in E | intros H; now apply Hreq in H]. }
  cbn [fst snd ret]. split; [reflexivity|]. split.
  - intros res. split.
    + intros [= <-]. exists c, u, pw, d. repeat split; congruence.
    + intros (c' & u' & pw' & d' & [= <-] & Hu' & Hp' & [= <-] & _ & _ & ->).
      congruence.
  - split; [discriminate | intros H; now apply Hreq in H].
Qed.








(** [logout] is idempotent, and after it no session is found: the check
    answers [false] and the read answers [null], both without any further
    effect. *)
Theorem logout_idempotent (P : Platform) (self : AuthManager) (now : Z) (w : state) :
  let w1 := snd (logout self w) in
  logout self w1 = (inr tt, w1)
  /\ checkSession P self now w1 = (inr false, w1)
  /\ getSession P self w1 = (inr Null, w1).
Proof.
  intros w1. subst w1.
  change (snd (logout self w))
    with (with_href (js "/index.html") (with_localStorage (delete (sessionKey self)) w)).
  set (w' := with_href _ _).
  assert (Hnone : localStorage w' !! sessionKey self = None) by apply lookup_delete_eq.
  split; [|split].
  - rewrite ManagerFacts.logout_run. f_equal. unfold w', with_href, with_localStorage.
    cbn [localStorage location_href console calls rateLimiter currentProvider].
    now rewrite delete_delete_eq.
  - unfold checkSession, bind, localStorage_getItem, gets. now rewrite Hnone.
  - unfold getSession, bind, localStorage_getItem, gets. now rewrite Hnone.
Qed.

(** [checkSession] never throws; when it answers [true] it has changed
    nothing, and when it answers [false] no usable session is left. *)
Lemma checkSession_total (P : Platform) (self : AuthManager) (now : Z) (w : state) :
  exists b w',
    checkSession P self now w = (inr b, w')
    /\ (b = true -> w' = w)
    /\ (b = false -> present (localStorage w' !! sessionKey self) = None).
Proof.
  unfold checkSession, bind at 1, localStorage_getItem, gets.
  destruct (present (localStorage w !! sessionKey self)) as [text|] eqn:Hpres.
  2:{ exists false, w. split; [reflexivity|]. split; [discriminate | now intros _]. }
  assert (Hgone : forall w0,
             present (localStorage
                        (with_href (js "/index.html")
                           (with_localStorage (delete (sessionKey self)) w0))
                      !! sessionKey self) = None).
  { intros w0. cbn [localStorage with_href with_localStorage].
    now rewrite lookup_delete_eq. }
  unfold try_catch, bind at 1, WebAuthn.parse.
  destruct (JSON_parse P text) as [v|].
  2:{ eexists false, _. split; [reflexivity|]. split; [discriminate|]. intros _. apply Hgone. }
  unfold ret at 1, bind at 1, lift.
  destruct (get_prop v (js "expiry")) as [e|expiry].
  { eexists false, _. split; [reflexivity|]. split; [discriminate|]. intros _. apply Hgone. }
  destruct (js_lt_num P expiry now).
  - eexists false, _. split; [reflexivity|]. split; [discriminate|]. intros _. apply Hgone.
  - exists true, w. split; [reflexivity|]. split; [reflexivity | discriminate].
Qed.

(** [protectPage] never throws. With a valid session it changes nothing;
    otherwise the page ends at [/public/login.html], also when the failed
    check had already sent it to [/index.html], and no usable session is
    left in the store. *)
Theorem protectPage_guards (P : Platform) (self : AuthManager) (now : Z) (w : state) :
  exists w',
    protectPage P self now w = (inr tt, w')
    /\ ((checkSession P self now w = (inr true, w) /\ w' = w)
        \/ (fst (checkSession P self now w) = inr false
            /\ location_href w' = js "/public/login.html"
            /\ present (localStorage w' !! sessionKey self) = None)).
Proof.
  destruct (checkSession_total P self now w) as (b & w1 & Hc & Ht & Hf).
  unfold protectPage, bind. rewrite Hc.
  destruct b; cbn [negb].
  - exists w1. rewrite (Ht eq_refl). split; [reflexivity|]. left. split; reflexivity.
  - eexists. split; [reflexivity|]. right. split; [reflexivity|].
    split; [reflexivity|]. apply (Hf eq_refl).
Qed.

End SessionFacts.

(** ** AuthManager: the limiter across calls *)

Module LimiterFacts.
Import Manager ManagerFacts.

Lemma key_of_inj (a b : jsstring) : key_of a = key_of b -> a = b.
Proof. unfold key_of. apply app_inv_head. Qed.

(** A [try] block that returns has cleared the method's entry, and has
    written the session when the result reports success. *)
Lemma attempt_returned (P : Platform) (self : AuthManager) (i : Inputs) (later : Z)
    (method : jsstring) (credentials : option Credentials) (w w' : state)
    (res : AuthResult) :
  attempt P self i later method credentials w = (inr res, w') ->
  rateLimiter w' !! key_of method = None
  /\ (success res = true ->
      localStorage w' !! sessionKey self
      = Some (JSON_stringify P (session_record self later (session_user res credentials)))).
Proof.
  unfold attempt, bind at 1.
  destruct (dispatch P self i method credentials w) as [[e | res0] w1]; [discriminate|].
  unfold bind, resetRateLimit, modify, createSession, localStorage_setItem, ret.
  destruct (success res0) eqn:Hs; intros [= <- <-].
  - split; [apply lookup_delete_eq|]. intros _.
    cbn [localStorage with_localStorage]. apply lookup_insert_eq.
  - split; [apply lookup_delete_eq|]. congruence.
Qed.

(** Every call of [authenticate] that returns, whatever its method and
    whether or not the limiter is enabled, leaves no limiter entry for the
    method; when the result reports success, the session record for the
    reported user, stamped with the time the strategy settled, is in the
    store. *)
Theorem returned_call_resets (P : Platform) (self : AuthManager) (i : Inputs)
    (now later : Z) (method : jsstring) (credentials : option Credentials)
    (w w' : state) (res : AuthResult) :
  authenticate P self i now later method credentials w = (inr res, w') ->
  rateLimiter w' !! key_of method = None
  /\ (success res = true ->
      localStorage w' !! sessionKey self
      = Some (JSON_stringify P (session_record self later (session_user res credentials)))).
Proof.
  rewrite authenticate_run.
  destruct (checkRateLimit self now method w) as [[e | [|]] w1]; try discriminate.
  destruct (attempt P self i later method credentials w1) as [[e | res'] w2] eqn:Ha;
    [discriminate|].
  intros [= <- <-]. exact (attempt_returned _ _ _ _ _ _ _ _ _ Ha).
Qed.

Lemma returned_call_resets_witness :
  let r := authenticate (Example.browser true) (Example.manager true) Example.inputs 5 6
             (js "local") Example.right_password Example.three_failures in
  rateLimiter (snd r) !! key_of (js "local") = None
  /\ localStorage (snd r) !! js "dryouu_session" = Some (js "{}").
Proof.
  intros r.
  destruct (returned_call_resets (Example.browser true) (Example.manager true)
              Example.inputs 5 6 (js "local") Example.right_password
              Example.three_failures (snd r)
              {| success := true; method := Some (js "local");
                 user := Some (Obj [(js "username", Str (js "admin"));
                                    (js "displayName", Str (js "admin"))]) |})
    as [A B].
  - vm_compute. reflexivity.
  - split; [exact A | exact (B eq_refl)].
Defined.

(** While a method's entry holds [maxAttempts] failures or more and its
    window has not expired, every call for that method is refused with
    [RateLimitedError] before any strategy runs, whatever the credentials,
    and nothing changes. *)
Theorem locked_out (P : Platform) (self : AuthManager) (i : Inputs) (now later : Z)
    (method : jsstring) (credentials : option Credentials) (w : state)
    (a : attempts) (win m : Z) :
  rateLimit_enabled self = true ->
  windowMs self = Some win ->
  maxAttempts self = Some m ->
  rateLimiter w !! key_of method = Some a ->
  now - timestamp a <= win ->
  m <= count a ->
  authenticate P self i now later method credentials w = (inl RateLimitedError, w).
Proof.
  intros He Hw Hm Ha Hin Hfull. rewrite authenticate_run.
  rewrite (checkRateLimit_within self now win m method w He Hw Hm);
    rewrite Ha; cbn [entry_or_fresh]; [|exact Hin].
  destruct (Z.ltb_spec (count a) m); [lia | reflexivity].
Qed.

Lemma locked_out_witness :
  let w := with_rateLimiter (insert (key_of (js "local")) {| count := 5; timestamp := 0 |})
             Example.fresh in
  authenticate (Example.browser true) (Example.manager true) Example.inputs 900000 900001
    (js "local") Example.right_password w
  = (inl RateLimitedError, w).
Proof.
  intros w.
  apply (locked_out (Example.browser true) (Example.manager true) Example.inputs
           900000 900001 (js "local") Example.right_password w
           {| count := 5; timestamp := 0 |} 900000 5);
    first [reflexivity | cbn; lia].
Defined.

Section Isolation.
Context (P : Platform) (self : AuthManager) (method : jsstring) (k : jsstring).
Hypothesis Hk : k <> key_of method.

Lemma check_elsewhere (now : Z) (w : state) :
  rateLimiter (snd (checkRateLimit self now method w)) !! k = rateLimiter w !! k.
Proof.
  unfold checkRateLimit. destruct (rateLimit_enabled self); cbn [negb]; [|reflexivity].
  unfold bind, gets, modify, ret. destruct (gt_opt _ _); [|reflexivity].
  cbn [snd rateLimiter with_rateLimiter]. now rewrite lookup_delete_ne.
Qed.

Lemma increment_elsewhere (now : Z) (w : state) :
  rateLimiter (snd (incrementRateLimit self now method w)) !! k = rateLimiter w !! k.
Proof.
  unfold incrementRateLimit. destruct (rateLimit_enabled self); cbn [negb]; [|reflexivity].
  unfold bind, gets, modify. cbn [snd rateLimiter with_rateLimiter].
  now rewrite lookup_insert_ne.
Qed.

Lemma attempt_elsewhere (i : Inputs) (later : Z) (credentials : option Credentials)
    (w : state) :
  rateLimiter (snd (attempt P self i later method credentials w)) !! k
  = rateLimiter w !! k.
Proof.
  unfold attempt, bind at 1.
  pose proof (dispatch_keeps_rateLimiter P self i method credentials w) as Hd.
  destruct (dispatch P self i method credentials w) as [[e | res] w1]; cbn [snd] in *.
  - now rewrite Hd.
  - unfold bind, resetRateLimit, createSession, localStorage_setItem, modify, ret.
    destruct (success res); cbn [snd rateLimiter with_rateLimiter with_localStorage];
      rewrite lookup_delete_ne by congruence; now rewrite Hd.
Qed.

Lemma authenticate_elsewhere (i : Inputs) (now later : Z)
    (credentials : option Credentials) (w : state) :
  rateLimiter (snd (authenticate P self i now later method credentials w)) !! k
  = rateLimiter w !! k.
Proof.
  rewrite authenticate_run.
  pose proof (check_elsewhere now w) as Hc.
  destruct (checkRateLimit self now method w) as [[e | [|]] w1]; cbn [snd] in *;
    try exact Hc.
  pose proof (attempt_elsewhere i later credentials w1) as Ha.
  destruct (attempt P self i later method credentials w1) as [[e | res] w2];
    cbn [snd] in *.
  - rewrite increment_elsewhere. congruence.
  - congruence.
Qed.

End Isolation.

(** The limiter is kept per method: a call of [authenticate] for one
    method, however it ends, leaves the entry of every other method as it
    was. *)
Theorem limiter_isolated (P : Platform) (self : AuthManager) (i : Inputs)
    (now later : Z) (method other : jsstring) (credentials : option Credentials)
    (w : state) :
  other <> method ->
  rateLimiter (snd (authenticate P self i now later method credentials w)) !! key_of other
  = rateLimiter w !! key_of other.
Proof.
  intros Hne. apply authenticate_elsewhere.
  intros E. apply key_of_inj in E. contradiction.
Qed.

Lemma limiter_isolated_witness :
  rateLimiter
    (snd (authenticate (Example.browser true) (Example.manager true) Example.inputs 1 2
            (js "webauthn") None Example.three_failures))
    !! key_of (js "local")
  = Some {| count := 3; timestamp := 0 |}.
Proof.
  rewrite (limiter_isolated (Example.browser true) (Example.manager true) Example.inputs
             1 2 (js "webauthn") (js "local") None Example.three_failures)
    by discriminate.
  apply lookup_insert_eq.
Defined.

Section Bound.
Context (P : Platform) (self : AuthManager) (method : jsstring) (win m : Z).
Hypothesis Henabled : rateLimit_enabled self = true.
Hypothesis Hwindow : windowMs self = Some win.
Hypothesis Hmax : maxAttempts self = Some m.
Hypothesis Hpos : 1 <= m.



End Bound.



End LimiterFacts.

(** ** OAuth2Auth: registration, redirect and callback *)

Module FlowFacts.
Import Encoding Encoding_aux Base64Facts OAuth2 OAuth2Facts Flow_aux.

(** What a callback that was accepted found, and what it left. *)
Lemma handleCallback_accepted (P : Platform) (self : OAuth2Auth)
    (params : jsstring -> option jsstring) (now : Z) (w w' : state)
    (res : CallbackResult) :
  handleCallback P self params now w = (inr res, w') ->
  present (params (js "error")) = None
  /\ params (js "state") = localStorage w !! state_key
  /\ exists providerName provider,
       localStorage w !! provider_key = Some providerName
       /\ providers self !! providerName = Some provider
       /\ res = accepted P now providerName provider
       /\ w' = settled w.
Proof.
  unfold handleCallback.
  destruct (present (params (js "error"))) as [e|]; [discriminate|].
  unfold bind at 1, getStoredState, localStorage_getItem at 1, gets at 1.
  destruct (bool_decide (params (js "state") = localStorage w !! state_key)) eqn:B;
    [apply bool_decide_eq_true_1 in B | discriminate]; cbn [negb].
  unfold bind at 1, localStorage_getItem at 1, gets at 1.
  destruct (localStorage w !! provider_key) as [p|]; [|discriminate].
  destruct (providers self !! p) as [prov|] eqn:Hp; [|discriminate].
  intros [= <- <-]. split; [reflexivity|]. split; [exact B|].
  exists p, prov. repeat split; assumption.
Qed.

(** [handleCallback] accepts a callback exactly when it carries no error
    parameter, its [state] equals the stored one (both may be missing), and
    the stored provider name is registered. It then reports that provider,
    runs the demo exchange, and removes the stored state, verifier and
    provider. *)
Theorem callback_accepted_exactly (P : Platform) (self : OAuth2Auth)
    (params : jsstring -> option jsstring) (now : Z) (w w' : state)
    (res : CallbackResult) :
  handleCallback P self params now w = (inr res, w') <->
  present (params (js "error")) = None
  /\ params (js "state") = localStorage w !! state_key
  /\ exists providerName provider,
       localStorage w !! provider_key = Some providerName
       /\ providers self !! providerName = Some provider
       /\ res = accepted P now providerName provider
       /\ w' = settled w.
Proof.
  split; [apply handleCallback_accepted|].
  intros (He & Hst & p & prov & Hpk & Hp & -> & ->).
  unfold handleCallback. rewrite He.
  unfold bind at 1, getStoredState, localStorage_getItem at 1, gets at 1.
  rewrite bool_decide_eq_true_2 by exact Hst. cbn [negb].
  unfold bind at 1, localStorage_getItem at 1, gets at 1.
  rewrite Hpk, Hp. reflexivity.
Qed.

(** An accepted callback is single-use: in the state it leaves behind,
    every further callback fails and changes nothing, and one that repeats
    a [state] parameter fails with [CsrfMismatchError]. *)
Theorem callback_not_replayable (P : Platform) (self : OAuth2Auth)
    (params : jsstring -> option jsstring) (now : Z) (w w' : state)
    (res : CallbackResult) :
  handleCallback P self params now w = (inr res, w') ->
  forall params' now',
    (exists e, handleCallback P self params' now' w' = (inl e, w'))
    /\ (present (params' (js "error")) = None ->
        is_Some (params' (js "state")) ->
        handleCallback P self params' now' w' = (inl CsrfMismatchError, w')).
Proof.
  intros H. apply handleCallback_accepted in H as (_ & _ & p & prov & _ & _ & _ & ->).
  destruct keys_distinct as (Hsv & Hsp & Hvp).
  assert (Hs : localStorage (settled w) !! state_key = None).
  { unfold settled. cbn [localStorage with_localStorage with_console].
    rewrite lookup_delete_ne by congruence. rewrite lookup_delete_ne by congruence.
    apply lookup_delete_eq. }
  assert (Hp : localStorage (settled w) !! provider_key = None).
  { unfold settled. cbn [localStorage with_localStorage with_console].
    apply lookup_delete_eq. }
  intros params' now'. split.
  - unfold handleCallback.
    destruct (present (params' (js "error"))); [eexists; reflexivity|].
    unfold bind at 1, getStoredState, localStorage_getItem at 1, gets at 1.
    destruct (bool_decide _); cbn [negb]; [|eexists; reflexivity].
    unfold bind at 1, localStorage_getItem at 1, gets at 1. rewrite Hp.
    eexists; reflexivity.
  - intros He [s Hst].
    rewrite handleCallback_rejects by (rewrite Hs, Hst; discriminate).
    now rewrite He.
Qed.

Lemma callback_not_replayable_witness :
  let P := Example.browser true in
  let w' := snd (handleCallback P Example.google_only Example.right_state 0 Example.pending_google) in
  fst (handleCallback P Example.google_only Example.right_state 0 Example.pending_google)
  = inr (accepted P 0 (js "google") Example.google)
  /\ handleCallback P Example.google_only Example.right_state 1 w' = (inl CsrfMismatchError, w').
Proof.
  intros P w'.
  assert (H : handleCallback P Example.google_only Example.right_state 0 Example.pending_google
              = (inr (accepted P 0 (js "google") Example.google), w')).
  { vm_compute. reflexivity. }
  split; [now rewrite H|].
  apply (proj2 (callback_not_replayable P Example.google_only Example.right_state 0
                  Example.pending_google w' _ H Example.right_state 1)).
  - reflexivity.
  - exists (js "right"). reflexivity.
Defined.

Lemma buildAuthUrl_params (P : Platform) (provider : Provider) (st challenge : jsstring) :
  buildAuthUrl P provider st challenge
  = authUrl provider ++ js "?"
    ++ URLSearchParams_toString P (authorization_params provider st challenge).
Proof.
  unfold buildAuthUrl, authorization_params.
  destruct (responseMode provider) as [[|c m]|]; cbn [present];
    rewrite ?app_nil_r; reflexivity.
Qed.

(** A started authorization sends the browser to the provider's
    authorization URL with exactly the stored state, and with the challenge
    that is [base64url(SHA-256(...))] of the stored verifier; the provider
    name is stored beside them. *)
Theorem redirect_binds_stored_values (P : Platform) (self : OAuth2Auth)
    (rnd_state rnd_pkce : nat -> byte) (providerName : jsstring) (provider : Provider)
    (w : state) :
  providers self !! providerName = Some provider ->
  let w' := snd (authenticate P self rnd_state rnd_pkce providerName w) in
  exists st verifier,
    localStorage w' !! state_key = Some st
    /\ localStorage w' !! verifier_key = Some verifier
    /\ localStorage w' !! provider_key = Some providerName
    /\ location_href w'
       = authUrl provider ++ js "?"
         ++ URLSearchParams_toString P
              (authorization_params provider st
                 (base64url (digest_SHA256 P (TextEncoder_encode verifier)))).
Proof.
  intros Hp w'.
  exists (hex_of_bytes (map rnd_state (seq 0 32))), (hex_of_bytes (map rnd_pkce (seq 0 32))).
  destruct keys_distinct as (Hsv & Hsp & Hvp).
  assert (E : w' = with_href
                     (buildAuthUrl P provider (hex_of_bytes (map rnd_state (seq 0 32)))
                        (base64url
                           (digest_SHA256 P
                              (TextEncoder_encode (hex_of_bytes (map rnd_pkce (seq 0 32)))))))
                     (with_localStorage (insert provider_key providerName)
                        (with_localStorage
                           (insert verifier_key (hex_of_bytes (map rnd_pkce (seq 0 32))))
                           (with_call (call_getRandomValues 32)
                              (with_localStorage
                                 (insert state_key (hex_of_bytes (map rnd_state (seq 0 32))))
                                 (with_call (call_getRandomValues 32)
                                    (with_currentProvider (Some providerName) w))))))).
  { unfold w', authenticate. rewrite Hp.
    unfold bind at 1. unfold modify at 1. unfold bind at 1.
    unfold generateState at 1. unfold bind at 1.
    unfold getRandomValues at 1. unfold bind at 1.
    unfold record_call at 1, modify at 1, ret at 1, ret at 1.
    unfold bind at 1. unfold storeState at 1, localStorage_setItem at 1, modify at 1.
    unfold bind at 1. rewrite generatePKCE_ok. reflexivity. }
  rewrite E. cbn [localStorage location_href with_href with_localStorage with_call
                  with_currentProvider].
  split; [|split; [|split; [|apply buildAuthUrl_params]]].
  - rewrite lookup_insert_ne by congruence. rewrite lookup_insert_ne by congruence.
    apply lookup_insert_eq.
  - rewrite lookup_insert_ne by congruence. apply lookup_insert_eq.
  - apply lookup_insert_eq.
Qed.

Lemma redirect_binds_stored_values_witness :
  let w' := snd (authenticate (Example.browser true) Example.google_only Example.zeros
                   Example.ones (js "google") Example.fresh) in
  exists st verifier,
    localStorage w' !! state_key = Some st
    /\ localStorage w' !! verifier_key = Some verifier
    /\ localStorage w' !! provider_key = Some (js "google")
    /\ location_href w'
       = authUrl Example.google ++ js "?"
         ++ URLSearchParams_toString (Example.browser true)
              (authorization_params Example.google st
                 (base64url (digest_SHA256 (Example.browser true)
                               (TextEncoder_encode verifier)))).
Proof.
  apply (redirect_binds_stored_values (Example.browser true) Example.google_only
           Example.zeros Example.ones (js "google") Example.google Example.fresh).
  apply lookup_singleton_eq.
Defined.

Lemma hex_digit_inj (d1 d2 : Z) :
  0 <= d1 < 16 -> 0 <= d2 < 16 -> hex_digit d1 = hex_digit d2 -> d1 = d2.
Proof.
  unfold hex_digit. intros H1 H2.
  destruct (Z.ltb_spec d1 10); destruct (Z.ltb_spec d2 10); lia.
Qed.

Lemma byte_to_Z_inj (a b : byte) : byte_to_Z a = byte_to_Z b -> a = b.
Proof.
  intros H. rewrite <- (byte_of_to_Z a), <- (byte_of_to_Z b). now rewrite H.
Qed.

Lemma hex_of_bytes_cons (b : byte) (l : list byte) :
  hex_of_bytes (b :: l)
  = hex_digit (byte_to_Z b / 16) :: hex_digit (byte_to_Z b mod 16) :: hex_of_bytes l.
Proof.
  unfold hex_of_bytes. cbn [map concat]. now rewrite hex_byte.
Qed.

Lemma hex_of_bytes_inj (l1 l2 : list byte) :
  hex_of_bytes l1 = hex_of_bytes l2 -> l1 = l2.
Proof.
  revert l2. induction l1 as [|a l1 IH]; intros [|b l2].
  - reflexivity.
  - rewrite hex_of_bytes_cons. discriminate.
  - rewrite hex_of_bytes_cons. discriminate.
  - rewrite !hex_of_bytes_cons. intros [= Hhi Hlo Hrest].
    pose proof (byte_to_Z_range a). pose proof (byte_to_Z_range b).
    apply hex_digit_inj in Hhi; [|Z.div_mod_to_equations; lia ..].
    apply hex_digit_inj in Hlo; [|Z.div_mod_to_equations; lia ..].
    f_equal; [|now apply IH].
    apply byte_to_Z_inj. Z.div_mod_to_equations; lia.
Qed.

(** The CSRF state is 64 lower-case hexadecimal digits, and it carries all
    of the 32 random bytes it was made from: two states are equal only if
    the bytes drawn for them are. *)
Theorem state_carries_entropy (rnd rnd' : nat -> byte) (w w' : state) :
  exists st st',
    fst (generateState rnd w) = inr st
    /\ fst (generateState rnd' w') = inr st'
    /\ length st = 64%nat
    /\ Forall hex_char st
    /\ (st = st' -> map rnd (seq 0 32) = map rnd' (seq 0 32)).
Proof.
  exists (hex_of_bytes (map rnd (seq 0 32))), (hex_of_bytes (map rnd' (seq 0 32))).
  split; [reflexivity|]. split; [reflexivity|]. split; [|split].
  - rewrite hex_of_bytes_length, length_map, length_seq. reflexivity.
  - apply hex_of_bytes_chars.
  - apply hex_of_bytes_inj.
Qed.

Lemma b64url_char_safe (i : Z) : sextet i -> url_safe_code (b64url_char i).
Proof.
  unfold sextet, b64url_char, url_safe_code. intros H.
  destruct (Z.ltb_spec i 26); [lia|].
  destruct (Z.ltb_spec i 52); [lia|].
  destruct (Z.ltb_spec i 62); [lia|].
  destruct (Z.eqb_spec i 62); lia.
Qed.

Lemma base64url_safe (data : list byte) : Forall url_safe_code (base64url data).
Proof.
  induction data as [| a | a b | a b c l IH] using list_ind3;
    cbn [base64url]; cbv zeta.
  - constructor.
  - pose proof (byte_to_Z_range a).
    repeat (constructor; [apply b64url_char_safe; unfold sextet;
                          Z.div_mod_to_equations; lia|]).
    constructor.
  - pose proof (byte_to_Z_range a). pose proof (byte_to_Z_range b).
    repeat (constructor; [apply b64url_char_safe; unfold sextet;
                          Z.div_mod_to_equations; lia|]).
    constructor.
  - pose proof (byte_to_Z_range a). pose proof (byte_to_Z_range b).
    pose proof (byte_to_Z_range c).
    repeat (constructor; [apply b64url_char_safe; unfold sextet;
                          Z.div_mod_to_equations; lia|]).
    exact IH.
Qed.

Lemma base64url_length (data : list byte) :
  exists k : nat,
    (length data = 3 * k /\ length (base64url data) = 4 * k)%nat
    \/ (length data = 3 * k + 1 /\ length (base64url data) = 4 * k + 2)%nat
    \/ (length data = 3 * k + 2 /\ length (base64url data) = 4 * k + 3)%nat.
Proof.
  induction data as [| a | a b | a b c l IH] using list_ind3;
    cbn [base64url length]; cbv zeta.
  - exists 0%nat. lia.
  - exists 0%nat. lia.
  - exists 0%nat. lia.
  - destruct IH as [k IH]. exists (S k). cbn [length]. lia.
Qed.

(** The code challenge consists of URL-safe characters only, with no
    padding; for a 32-byte digest it is 43 characters long. *)
Theorem challenge_shape (P : Platform) (rnd : nat -> byte) (w : state) :
  (forall data, length (digest_SHA256 P data) = 32%nat) ->
  exists pk w',
    generatePKCE P rnd w = (inr pk, w')
    /\ Forall url_safe_code (codeChallenge pk)
    /\ length (codeChallenge pk) = 43%nat.
Proof.
  intros Hlen. eexists _, _. split; [apply generatePKCE_ok|]. cbn [codeChallenge].
  split; [apply base64url_safe|].
  destruct (base64url_length
              (digest_SHA256 P (TextEncoder_encode (hex_of_bytes (map rnd (seq 0 32))))))
    as [k Hk].
  rewrite Hlen in Hk. lia.
Qed.

Lemma challenge_shape_witness :
  exists pk w',
    generatePKCE (Example.echo Null) Example.zeros Example.fresh = (inr pk, w')
    /\ Forall url_safe_code (codeChallenge pk)
    /\ length (codeChallenge pk) = 43%nat.
Proof.
  apply (challenge_shape (Example.echo Null) Example.zeros Example.fresh).
  intros data. cbn [digest_SHA256 Example.echo].
  rewrite length_take, length_app, repeat_length. lia.
Defined.

(** *** Registration of providers *)

Lemma usable_test (e : ProviderEntry) :
  e_enabled e && bool_decide (e_type e = js "oauth2") = true <-> usable e.
Proof.
  unfold usable. rewrite andb_true_iff, bool_decide_eq_true. reflexivity.
Qed.

Lemma register_all_ok (entries : list (jsstring * ProviderEntry)) :
  forall self self',
    register_all self entries = (inr tt, self') ->
    callbackUrl self' = callbackUrl self
    /\ forall k, is_Some (providers self' !! k)
                 <-> is_Some (providers self !! k)
                     \/ exists e, (k, e) ∈ entries /\ usable e.
Proof.
  induction entries as [|[key e] rest IH]; intros self self' H; cbn [register_all] in H.
  - injection H as <-. split; [reflexivity|]. intros k. split; [now left|].
    intros [Hs | (e & Hin & _)]; [exact Hs | now apply elem_of_nil in Hin].
  - destruct (e_enabled e && bool_decide (e_type e = js "oauth2")) eqn:Ht.
    + apply usable_test in Ht. unfold registerProvider in H.
      destruct (settings e) as [c|]; [|discriminate].
      apply IH in H as [Hcb Hk]. cbn [callbackUrl providers] in *.
      split; [exact Hcb|]. intros k. rewrite Hk. rewrite lookup_insert_is_Some.
      split.
      * intros [[-> | [_ Hs]] | (e' & Hin & Hu)].
        -- right. exists e. split; [apply list_elem_of_here | exact Ht].
        -- now left.
        -- right. exists e'. split; [now apply list_elem_of_further | exact Hu].
      * intros [Hs | (e' & Hin & Hu)].
        -- left. destruct (decide (key = k)); [now left | right; now split].
        -- apply elem_of_cons in Hin as [[= -> ->] | Hin].
           ++ left. now left.
           ++ right. exists e'. now split.
    + apply IH in H as [Hcb Hk]. split; [exact Hcb|]. intros k. rewrite Hk.
      split.
      * intros [Hs | (e' & Hin & Hu)]; [now left|].
        right. exists e'. split; [now apply list_elem_of_further | exact Hu].
      * intros [Hs | (e' & Hin & Hu)]; [now left|].
        apply elem_of_cons in Hin as [[= -> ->] | Hin].
        -- apply usable_test in Hu. congruence.
        -- right. exists e'. now split.
Qed.

(** After a successful [init] on a new instance, a provider name is
    registered exactly when the configuration has an enabled entry of type
    [oauth2] under that name; starting an authorization for any other name,
    a disabled provider included, fails with the provider-not-found error
    and changes nothing. *)
Theorem init_registers_enabled (P : Platform) (origin : jsstring)
    (entries : list (jsstring * ProviderEntry)) (self : OAuth2Auth) :
  init (constructor origin) (Some entries) = (inr tt, self) ->
  forall k,
    (is_Some (providers self !! k) <-> exists e, (k, e) ∈ entries /\ usable e)
    /\ ((forall e, (k, e) ∈ entries -> ~ usable e) ->
        forall rs rp w,
          authenticate P self rs rp k w = (inl (ProviderNotFound k), w)).
Proof.
  intros H k. cbn [init] in H. apply register_all_ok in H as [_ Hk].
  assert (Hiff : is_Some (providers self !! k) <-> exists e, (k, e) ∈ entries /\ usable e).
  { rewrite Hk. cbn [constructor providers]. rewrite lookup_empty. split.
    - intros [[? [=]] | H]; exact H.
    - intros H. now right. }
  split; [exact Hiff|].
  intros Hnone rs rp w. unfold authenticate.
  destruct (providers self !! k) eqn:E; [|reflexivity].
  exfalso. destruct (proj1 Hiff (ex_intro _ _ eq_refl)) as (e & Hin & Hu).
  exact (Hnone e Hin Hu).
Qed.

Lemma init_registers_enabled_witness :
  let r := init (constructor (js "https://dryouu.uk")) (Some Example.config_providers) in
  fst r = inr tt
  /\ is_Some (providers (snd r) !! js "google")
  /\ authenticate (Example.browser true) (snd r) Example.zeros Example.ones (js "github")
       Example.fresh
     = (inl (ProviderNotFound (js "github")), Example.fresh).
Proof.
  intros r.
  assert (H : init (constructor (js "https://dryouu.uk")) (Some Example.config_providers)
              = (inr tt, snd r)) by reflexivity.
  split; [reflexivity|].
  split.
  - apply (proj1 (init_registers_enabled (Example.browser true) _ _ _ H (js "google"))).
    exists Example.google_entry.
    refine (conj _ (conj eq_refl eq_refl)).
    apply list_elem_of_further, list_elem_of_here.
  - apply (proj2 (init_registers_enabled (Example.browser true) _ _ _ H (js "github"))).
    intros e Hin [He Ht].
    repeat (apply elem_of_cons in Hin as [E | Hin];
            [inversion E; subst; discriminate He|]).
    now apply elem_of_nil in Hin.
Defined.

End FlowFacts.

Module PasskeyFacts.
Import Encoding Encoding_aux Base64Facts WebAuthn WebAuthnFacts WebAuthn_aux.

Lemma stored_text_parsed (text : jsstring) : text <> [] -> stored_text (Some text) = text.
Proof. destruct text; [easy | reflexivity]. Qed.

Lemma register_stores (P : Platform) (self : WebAuthnAuth) (rnd : nat -> byte)
    (create : PublicKeyCredentialCreationOptions -> exn + AttestationCredential)
    (now : Z) (username : jsstring) (c : AttestationCredential) (l : list jsval)
    (w : state) :
  isSupported P = true ->
  JSON_parse P (stored_text (localStorage w !! credentials_key)) = Some (Arr l) ->
  create (creationOptions self (map rnd (seq 0 32)) (generateUserId username) username)
  = inr c ->
  exists data,
    register P self rnd create now username w
    = (inr data,
       with_localStorage
         (insert credentials_key
            (JSON_stringify P (Arr (l ++ [stored_credential username c now]))))
         (with_call
            (call_credentials_create
               (creationOptions self (map rnd (seq 0 32)) (generateUserId username)
                  username))
            (with_call (call_getRandomValues 32) w))).
Proof.
  intros Hs Hparse Hcreate. unfold register. rewrite Hs. cbn [negb].
  erewrite try_catch_bind_ret by reflexivity.
  erewrite try_catch_bind_ret by reflexivity.
  unfold try_catch, bind at 1, lift at 1. rewrite Hcreate.
  unfold bind at 1, lift at 1. rewrite arrayBufferToBase64_ok.
  unfold bind at 1, lift at 1. rewrite arrayBufferToBase64_ok.
  unfold bind at 1, lift at 1. rewrite arrayBufferToBase64_ok.
  unfold bind at 1, storeCredential, bind at 1, localStorage_getItem, gets.
  cbn [localStorage with_call]. unfold bind at 1, parse. rewrite Hparse.
  unfold ret at 1, bind at 1, lift, push.
  eexists. reflexivity.
Qed.

Lemma map_throwing_snoc {A B} (f : A -> exn + B) (l : list A) (x : A) (al : list B) :
  map_throwing f l = inr al ->
  map_throwing f (l ++ [x])
  = match f x with inl e => inl e | inr y => inr (al ++ [y]) end.
Proof.
  revert al. induction l as [|a l IH]; intros al; cbn [map_throwing app].
  - intros [= <-]. destruct (f x); reflexivity.
  - destruct (f a) as [e | b]; [discriminate|].
    destruct (map_throwing f l) as [e | bs]; [discriminate|].
    intros [= <-]. rewrite (IH bs eq_refl). destruct (f x); reflexivity.
Qed.

Lemma allowCredential_stored (P : Platform) (username : jsstring)
    (c : AttestationCredential) (now : Z) :
  allowCredential P (stored_credential username c now) = inr (allowed (ac_rawId c)).
Proof.
  unfold allowCredential.
  replace (get_prop (stored_credential username c now) (js "rawId"))
    with (inr (Str (b64_encode (map byte_to_Z (ac_rawId c)))) : exn + jsval) by reflexivity.
  unfold as_string, base64ToArrayBuffer.
  rewrite atob_b64_encode by apply octets_of_bytes.
  unfold allowed. do 3 f_equal. rewrite map_map. rewrite <- (map_id (ac_rawId c)) at 2.
  apply map_ext. intros x. apply byte_of_to_Z.
Qed.

Lemma find_by_id_snoc (l : list jsval) (x : jsval) (id : jsstring) (v : jsval) :
  find_by_id l id = inr None ->
  get_prop x (js "id") = inr v ->
  strict_eq_str v id = true ->
  find_by_id (l ++ [x]) id = inr (Some x).
Proof.
  intros Hl Hx Hv. induction l as [|a l IH]; cbn [find_by_id app] in *.
  - now rewrite Hx, Hv.
  - destruct (get_prop a (js "id")) as [e | va]; [discriminate|].
    destruct (strict_eq_str va id); [discriminate | auto].
Qed.

Lemma is_zero_length {A} (l : list A) (x : A) :
  is_zero (Num (Z.of_nat (length (l ++ [x])))) = false.
Proof.
  rewrite length_app. cbn [length]. rewrite Nat.add_1_r, Nat2Z.inj_succ.
  unfold Z.succ. destruct (Z.of_nat (length l) + 1) eqn:E; [lia | reflexivity ..].
Qed.

Theorem registered_passkey_recognised (P : Platform) (self : WebAuthnAuth)
    (rnd1 rnd2 : nat -> byte)
    (create : PublicKeyCredentialCreationOptions -> exn + AttestationCredential)
    (get : PublicKeyCredentialRequestOptions -> exn + AssertionCredential)
    (now : Z) (username : jsstring) (c : AttestationCredential)
    (a : AssertionCredential) (l : list jsval)
    (al : list (list byte * jsstring * list jsstring)) (w : state) :
  isSupported P = true ->
  JSON_parse P (stored_text (localStorage w !! credentials_key)) = Some (Arr l) ->
  map_throwing (allowCredential P) l = inr al ->
  find_by_id l (ac_id c) = inr None ->
  username <> [] ->
  create (creationOptions self (map rnd1 (seq 0 32)) (generateUserId username) username)
  = inr c ->
  JSON_faithful P (Arr (l ++ [stored_credential username c now])) ->
  let request :=
    assertion_request self (map rnd2 (seq 0 32)) (al ++ [allowed (ac_rawId c)]) in
  get request = inr a ->
  as_id a = ac_id c ->
  let w1 := snd (register P self rnd1 create now username w) in
  exists res w2,
    authenticate P self rnd2 get w1 = (inr res, w2)
    /\ ar_success res = true
    /\ ar_username res = Str username
    /\ calls w2 = calls w1 ++ [call_getRandomValues 32; call_credentials_get request]
    /\ localStorage w2 = localStorage w1.
Proof.
  intros Hs Hparse Hallow Hfind Hname Hcreate [Hback Htext] request Hget Hid w1.
  destruct (register_stores P self rnd1 create now username c l w Hs Hparse Hcreate)
    as [data Hreg].
  unfold w1. rewrite Hreg. cbn [snd]. set (w' := with_localStorage _ _).
  assert (Hitem : localStorage w' !! credentials_key
                  = Some (JSON_stringify P (Arr (l ++ [stored_credential username c now]))))
    by apply lookup_insert_eq.
  unfold authenticate. rewrite Hs. cbn [negb].
  unfold try_catch, getStoredCredentials, bind at 1 2, localStorage_getItem, gets, parse.
  rewrite Hitem, (stored_text_parsed _ Htext), Hback.
  unfold ret at 1. unfold bind at 1, lift at 1. rewrite get_length_Arr, is_zero_length.
  unfold bind at 1, generateChallenge, getRandomValues, bind at 1, record_call at 1,
    modify at 1, ret at 1.
  unfold bind at 1, lift at 1, allowCredentials.
  rewrite (map_throwing_snoc _ _ _ _ Hallow), allowCredential_stored.
  fold (assertion_request self (map rnd2 (seq 0 32)) (al ++ [allowed (ac_rawId c)])).
  fold request.
  unfold bind at 1, record_call at 1, modify at 1.
  unfold bind at 1, lift at 1. rewrite Hget.
  unfold bind at 1, lift at 1. rewrite arrayBufferToBase64_ok.
  unfold bind at 1, lift at 1. rewrite arrayBufferToBase64_ok.
  unfold bind at 1, lift at 1. rewrite arrayBufferToBase64_ok.
  unfold bind at 1, lift at 1. rewrite arrayBufferToBase64_ok.
  assert (Hfound : find_credential (Arr (l ++ [stored_credential username c now])) (as_id a)
                   = inr (Some (stored_credential username c now))).
  { unfold find_credential. rewrite Hid.
    apply (find_by_id_snoc l _ _ (Str (ac_id c)) Hfind); [reflexivity|].
    unfold strict_eq_str. now apply bool_decide_eq_true_2. }
  assert (Huser : username_of (Some (stored_credential username c now))
                  = inr (Str username)).
  { unfold username_of.
    replace (get_prop (stored_credential username c now) (js "username"))
      with (inr (Str username) : exn + jsval) by reflexivity.
    destruct username; [contradiction | reflexivity]. }
  destruct (as_userHandle a) as [h|].
  - unfold bind at 1 2, lift at 1. rewrite arrayBufferToBase64_ok. unfold ret at 1.
    unfold bind at 1, lift at 1. rewrite Hfound.
    unfold bind at 1, lift at 1. rewrite Huser. unfold ret.
    eexists _, _. split; [reflexivity|]. cbn [ar_success ar_username calls with_call
      localStorage]. rewrite <- app_assoc. repeat split.
  - unfold bind at 1, ret at 1.
    unfold bind at 1, lift at 1. rewrite Hfound.
    unfold bind at 1, lift at 1. rewrite Huser. unfold ret.
    eexists _, _. split; [reflexivity|]. cbn [ar_success ar_username calls with_call
      localStorage]. rewrite <- app_assoc. repeat split.
Qed.

Lemma registered_passkey_recognised_witness :
  let sc := stored_credential (js "ana") Example.passkey 0 in
  let P := Example.echo (Arr [sc]) in
  let create := fun _ : PublicKeyCredentialCreationOptions =>
                  inr Example.passkey : exn + AttestationCredential in
  let get := fun _ : PublicKeyCredentialRequestOptions =>
               inr Example.passkey_assertion : exn + AssertionCredential in
  let w1 := snd (register P Example.passkeys Example.zeros create 0 (js "ana")
                   Example.fresh) in
  exists res w2,
    authenticate P Example.passkeys Example.ones get w1 = (inr res, w2)
    /\ ar_success res = true
    /\ ar_username res = Str (js "ana").
Proof.
  intros sc P create get w1.
  destruct (registered_passkey_recognised P Example.passkeys Example.zeros Example.ones
              create get 0 (js "ana") Example.passkey Example.passkey_assertion [] []
              Example.fresh)
    as (res & w2 & H1 & H2 & H3 & _); try reflexivity.
  - discriminate.
  - split; [reflexivity | discriminate].
  - exists res, w2. split; [exact H1|]. split; [exact H2 | exact H3].
Defined.

Lemma fails_clean_bind {A B} (m : M A) (k : A -> M B) :
  preserves localStorage m -> (forall a, fails_clean (k a)) -> fails_clean (bind m k).
Proof.
  intros Hm Hk w e w' H. unfold bind in H. specialize (Hm w).
  destruct (m w) as [[e0 | a] w0]; cbn [snd] in Hm.
  - injection H as _ <-. exact Hm.
  - rewrite <- Hm. exact (Hk a w0 e w' H).
Qed.

Lemma fails_clean_ret {A B} (m : M A) (b : B) :
  fails_clean m -> fails_clean (bind m (fun _ => ret b)).
Proof.
  intros Hm w e w' H. unfold bind in H.
  destruct (m w) as [[e0 | a] w0] eqn:E; [|discriminate].
  injection H as _ <-. exact (Hm w e0 w0 E).
Qed.

Lemma fails_clean_returns {A} (m : M A) :
  (forall w, exists a w', m w = (inr a, w')) -> fails_clean m.
Proof.
  intros Hm w e w' H. destruct (Hm w) as (a & w0 & E). congruence.
Qed.

Lemma fails_clean_try_catch {A} (body : M A) (h : exn -> M A) :
  fails_clean body -> (forall e, preserves localStorage (h e)) ->
  fails_clean (try_catch body h).
Proof.
  intros Hb Hh w e w' H. unfold try_catch in H.
  destruct (body w) as [[e0 | a] w0] eqn:E; [|discriminate].
  rewrite <- (Hb w e0 w0 E). rewrite <- (Hh e0 w0). now rewrite H.
Qed.

Lemma register_fails_clean (P : Platform) (self : WebAuthnAuth) rnd create now username :
  fails_clean (register P self rnd create now username).
Proof.
  unfold register. destruct (isSupported P); cbn [negb].
  2:{ intros w e w' [= _ <-]. reflexivity. }
  apply fails_clean_try_catch.
  2:{ intros e. unfold log. preserve. }
  unfold generateChallenge, getRandomValues, record_call.
  apply fails_clean_bind; [preserve|]. intros challenge.
  apply fails_clean_bind; [preserve|]. intros _.
  apply fails_clean_bind; [preserve|]. intros credential.
  apply fails_clean_bind; [preserve|]. intros rawId.
  apply fails_clean_bind; [preserve|]. intros clientDataJSON.
  apply fails_clean_bind; [preserve|]. intros attestationObject.
  apply fails_clean_ret. unfold storeCredential, localStorage_getItem, parse.
  apply fails_clean_bind; [preserve|]. intros item.
  apply fails_clean_bind; [preserve|]. intros stored.
  apply fails_clean_bind; [preserve|]. intros stored'.
  apply fails_clean_returns. intros w. eexists _, _. reflexivity.
Qed.

(** A registration that fails, for whatever reason, leaves the stored
    credentials as they were; when it is the authenticator that refuses,
    its error is logged and rethrown as it is. *)
Theorem failed_registration_stores_nothing (P : Platform) (self : WebAuthnAuth)
    (rnd : nat -> byte)
    (create : PublicKeyCredentialCreationOptions -> exn + AttestationCredential)
    (now : Z) (username : jsstring) (w w' : state) (e : exn) :
  register P self rnd create now username w = (inl e, w') ->
  localStorage w' = localStorage w
  /\ (isSupported P = true ->
      forall refusal,
        create (creationOptions self (map rnd (seq 0 32)) (generateUserId username)
                  username) = inl refusal ->
        e = refusal
        /\ console w' = console w
                        ++ [console_error (js "WebAuthn registration error:") refusal]).
Proof.
  intros H. split; [exact (register_fails_clean P self rnd create now username w e w' H)|].
  intros Hs refusal Hcreate. revert H. unfold register. rewrite Hs. cbn [negb].
  erewrite try_catch_bind_ret by reflexivity.
  erewrite try_catch_bind_ret by reflexivity.
  unfold try_catch, bind at 1, lift at 1. rewrite Hcreate.
  intros [= <- <-]. split; reflexivity.
Qed.

Lemma failed_registration_stores_nothing_witness :
  let r := register (Example.browser true) Example.passkeys Example.zeros
             Example.no_attestation 0 (js "ana") Example.fresh in
  fst r = inl (DOMException (js "NotAllowedError"))
  /\ localStorage (snd r) = localStorage Example.fresh.
Proof.
  intros r.
  assert (H : register (Example.browser true) Example.passkeys Example.zeros
                Example.no_attestation 0 (js "ana") Example.fresh
              = (inl (DOMException (js "NotAllowedError")), snd r)) by reflexivity.
  split; [reflexivity|].
  exact (proj1 (failed_registration_stores_nothing _ _ _ _ _ _ _ _ _ H)).
Defined.

(** [authenticate] only reads: however it ends, the store, the location and
    the limiter are as before. *)
Theorem authentication_reads_only (P : Platform) (self : WebAuthnAuth)
    (rnd : nat -> byte)
    (get : PublicKeyCredentialRequestOptions -> exn + AssertionCredential) (w : state) :
  let r := authenticate P self rnd get w in
  localStorage (snd r) = localStorage w
  /\ location_href (snd r) = location_href w
  /\ rateLimiter (snd r) = rateLimiter w.
Proof.
  assert (H : forall B (proj : state -> B),
             (forall c w0, proj (with_call c w0) = proj w0) ->
             (forall c w0, proj (with_console c w0) = proj w0) ->
             preserves proj (authenticate P self rnd get)).
  { intros B proj Hcall Hcons.
    unfold authenticate, getStoredCredentials, parse, generateChallenge,
      getRandomValues, record_call, log, localStorage_getItem.
    preserve; apply preserves_modify; intros; auto. }
  split; [|split]; apply H; reflexivity.
Qed.

(** [clearCredentials] revokes every registration: after it, a login fails
    with [NoCredentialsError] before the authenticator is asked, provided
    the platform supports WebAuthn and parses the text of the empty list. *)
Theorem cleared_credentials_refuse (P : Platform) (self : WebAuthnAuth)
    (rnd : nat -> byte)
    (get : PublicKeyCredentialRequestOptions -> exn + AssertionCredential) (w : state) :
  isSupported P = true ->
  JSON_parse P (js "[]") = Some (Arr []) ->
  let w1 := snd (clearCredentials w) in
  let r := authenticate P self rnd get w1 in
  localStorage w1 !! credentials_key = None
  /\ fst r = inl NoCredentialsError
  /\ calls (snd r) = calls w.
Proof.
  intros Hs Hparse w1 r.
  assert (Hnone : localStorage w1 !! credentials_key = None) by apply lookup_delete_eq.
  split; [exact Hnone|]. unfold r.
  rewrite authenticate_empty; [split; reflexivity | exact Hs |].
  rewrite Hnone. exact Hparse.
Qed.

Lemma cleared_credentials_refuse_witness :
  let sc := stored_credential (js "ana") Example.passkey 0 in
  let P := Example.echo (Arr [sc]) in
  let create := fun _ : PublicKeyCredentialCreationOptions =>
                  inr Example.passkey : exn + AttestationCredential in
  let w0 := snd (register P Example.passkeys Example.zeros create 0 (js "ana")
                   Example.fresh) in
  is_Some (localStorage w0 !! credentials_key)
  /\ fst (authenticate P Example.passkeys Example.ones Example.no_authenticator
            (snd (clearCredentials w0)))
     = inl NoCredentialsError.
Proof.
  intros sc P create w0. split; [eexists; reflexivity|].
  exact (proj1 (proj2 (cleared_credentials_refuse P Example.passkeys Example.ones
                         Example.no_authenticator w0 eq_refl eq_refl))).
Defined.

Lemma byte_to_of_Z (z : Z) : 0 <= z < 256 -> byte_to_Z (byte_of_Z z) = z.
Proof.
  intros H. unfold byte_to_Z, byte_of_Z. rewrite Z.mod_small by lia.
  pose proof (Byte.to_of_N_option_map (Z.to_N z)) as E.
  destruct (Byte.of_N (Z.to_N z)) as [b|]; cbn [option_map] in E.
  - destruct (N.leb_spec (Z.to_N z) 255); [|lia]. injection E as ->. lia.
  - destruct (N.leb_spec (Z.to_N z) 255); [discriminate | lia].
Qed.

(** The bytes [TextEncoder] writes for one plain code unit. *)
Lemma encode_plain (c : Z) (rest : jsstring) :
  plain c ->
  TextEncoder_encode (c :: rest)
  = (if c <? 0x80 then [byte_of_Z c]
     else if c <? 0x800 then [byte_of_Z (0xC0 + c / 64); byte_of_Z (0x80 + c mod 64)]
     else utf8_3 c)
    ++ TextEncoder_encode rest.
Proof.
  intros Hc. cbn [TextEncoder_encode].
  destruct (c <? 0x80); [reflexivity|]. destruct (c <? 0x800); [reflexivity|].
  unfold is_high_surrogate, is_low_surrogate, plain in *.
  destruct (Z.leb_spec 0xD800 c); destruct (Z.ltb_spec c 0xDC00); cbn [andb]; try lia;
    destruct (Z.leb_spec 0xDC00 c); destruct (Z.ltb_spec c 0xE000); cbn [andb]; try lia;
    reflexivity.
Qed.

Lemma bytes_eq (x y : Z) :
  0 <= x < 256 -> 0 <= y < 256 -> byte_of_Z x = byte_of_Z y -> x = y.
Proof.
  intros Hx Hy H. apply (f_equal byte_to_Z) in H. now rewrite !byte_to_of_Z in H.
Qed.

(** Usernames without surrogate code units get distinct user handles. *)
Theorem user_handle_injective (u1 u2 : jsstring) :
  Forall plain u1 -> Forall plain u2 ->
  generateUserId u1 = generateUserId u2 -> u1 = u2.
Proof.
  unfold generateUserId. intros H1. revert u2.
  induction H1 as [|c1 u1 Hc1 _ IH]; intros u2 H2 E.
  - destruct H2 as [|c2 u2 Hc2 _]; [reflexivity|].
    rewrite (encode_plain c2 u2 Hc2) in E. unfold utf8_3 in E.
    destruct (c2 <? 0x80); [discriminate|]. destruct (c2 <? 0x800); discriminate.
  - destruct H2 as [|c2 u2 Hc2 H2].
    { rewrite (encode_plain c1 u1 Hc1) in E. unfold utf8_3 in E.
      destruct (c1 <? 0x80); [discriminate|]. destruct (c1 <? 0x800); discriminate. }
    rewrite (encode_plain c1 u1 Hc1), (encode_plain c2 u2 Hc2) in E.
    unfold utf8_3, plain in *.
    destruct (Z.ltb_spec c1 0x80); destruct (Z.ltb_spec c2 0x80);
      try destruct (Z.ltb_spec c1 0x800); try destruct (Z.ltb_spec c2 0x800);
      cbn [app] in E; injection E as E; intros;
      repeat match goal with
        | H : byte_of_Z _ = byte_of_Z _ |- _ =>
            apply bytes_eq in H; [|Z.div_mod_to_equations; lia ..]
        end;
      try (exfalso; Z.div_mod_to_equations; lia);
      (f_equal; [Z.div_mod_to_equations; lia | apply IH; assumption]).
Qed.

Lemma user_handle_injective_witness :
  Forall plain (js "ana") /\ js "ana" = js "ana".
Proof.
  assert (H : Forall plain (js "ana")) by (repeat constructor; cbn; lia).
  split; [exact H|].
  exact (user_handle_injective (js "ana") (js "ana") H H eq_refl).
Defined.

(** The availability probe never throws, and it answers [true] only when
    the manager has a WebAuthn instance, the platform supports WebAuthn and
    the platform's own probe answered [true]; a rejected probe counts as
    unavailable. *)
Theorem availability_never_throws (P : Platform) (self : Manager.AuthManager)
    (probe : exn + bool) (w : state) :
  exists b w',
    Manager.isWebAuthnAvailable P self probe w = (inr b, w')
    /\ (b = true <->
        is_Some (Manager.webauthn self) /\ isSupported P = true /\ probe = inr true)
    /\ localStorage w' = localStorage w.
Proof.
  unfold Manager.isWebAuthnAvailable, isPlatformAuthenticatorAvailable.
  destruct (Manager.webauthn self) as [wa|].
  2:{ exists false, w. split; [reflexivity|]. split; [|reflexivity].
      split; [discriminate | intros [[? [=]] _]]. }
  destruct (isSupported P); cbn [negb].
  2:{ exists false, w. split; [reflexivity|]. split; [|reflexivity].
      split; [discriminate | intros (_ & [=] & _)]. }
  destruct probe as [e | [|]].
  - eexists false, _. split; [reflexivity|]. split; [|reflexivity].
    split; [discriminate | intros (_ & _ & [=])].
  - exists true, w. split; [reflexivity|]. split; [|reflexivity].
    split; [intros _; repeat split; eauto | reflexivity].
  - exists false, w. split; [reflexivity|]. split; [|reflexivity].
    split; [discriminate | intros (_ & _ & [=])].
Qed.

End PasskeyFacts.

(** ** The transport encoding *)

Module TransportFacts.
Import Encoding Encoding_aux Base64Facts WebAuthn WebAuthnFacts WebAuthn_aux.

Lemma b64_encode_codes (s : jsstring) :
  Forall octet s -> Forall base64_code (b64_encode s).
Proof.
  intros H. rewrite b64_encode_split. apply Forall_app. split.
  - apply enc_sextets_range in H. induction H as [|i l Hi _ IH]; constructor; auto.
    left. rewrite b64_index_char by assumption. eauto.
  - destruct (enc_pad_cases s) as [-> | [-> | ->]]; repeat constructor; now right.
Qed.

Lemma b64_encode_size (s : jsstring) :
  length (b64_encode s) = (4 * ((length s + 2) / 3))%nat.
Proof.
  induction s as [| a | a b | a b c l IH] using list_ind3; try reflexivity.
  cbn [b64_encode length]. rewrite IH.
  replace (S (S (S (length l))) + 2)%nat with (1 * 3 + (length l + 2))%nat by lia.
  rewrite Nat.div_add_l by lia. lia.
Qed.

(** The encoded form of a buffer of [n] bytes has [4 * ceil(n / 3)]
    characters, each a base64 alphabet character or the padding sign. *)
Theorem encoded_size (buffer : list byte) :
  exists s,
    arrayBufferToBase64 buffer = inr s
    /\ length s = (4 * ((length buffer + 2) / 3))%nat
    /\ Forall base64_code s.
Proof.
  exists (b64_encode (map byte_to_Z buffer)).
  split; [apply arrayBufferToBase64_ok|]. split.
  - now rewrite b64_encode_size, length_map.
  - apply b64_encode_codes, octets_of_bytes.
Qed.

Lemma strip_padding_keeps (d : jsstring) (c : Z) :
  In c d -> c <> pad -> In c (strip_padding d).
Proof.
  intros Hin Hc. unfold strip_padding.
  destruct (rev d) as [|a r] eqn:E; [exact Hin|].
  apply (f_equal (@rev Z)) in E. rewrite rev_involutive in E. cbn [rev] in E.
  destruct (Z.eqb_spec a pad) as [-> | _]; [|exact Hin].
  rewrite E in Hin. apply in_app_or in Hin as [Hin | [<- | []]]; [|contradiction].
  destruct r as [|b r']; [contradiction|].
  destruct (Z.eqb_spec b pad) as [-> | _]; [|exact Hin].
  cbn [rev] in Hin. apply in_app_or in Hin as [Hin | [<- | []]];
    [exact Hin | contradiction].
Qed.

Lemma sextets_of_foreign (d : jsstring) (c : Z) :
  In c d -> b64_index c = None -> sextets_of d = None.
Proof.
  intros Hin Hc. induction d as [|x d IH]; [contradiction|].
  cbn [sextets_of]. destruct Hin as [-> | Hin].
  - now rewrite Hc.
  - rewrite (IH Hin). destruct (b64_index x); reflexivity.
Qed.

(** Decoding fails with [InvalidCharacterError] on every text that holds a
    character other than the base64 alphabet, white space and the padding
    sign; the URL-safe [-] and [_] are such characters. *)
Theorem foreign_character_rejected (base64 : jsstring) (c : Z) :
  In c base64 ->
  b64_index c = None ->
  ascii_whitespace c = false ->
  c <> pad ->
  base64ToArrayBuffer base64 = inl InvalidCharacterError.
Proof.
  intros Hin Hidx Hws Hpad. unfold base64ToArrayBuffer, atob.
  set (d1 := List.filter _ base64).
  assert (H1 : In c d1).
  { apply filter_In. split; [exact Hin | now rewrite Hws]. }
  set (d2 := if _ =? 0 then strip_padding d1 else d1).
  assert (H2 : In c d2).
  { unfold d2. destruct (_ =? 0); [now apply strip_padding_keeps | exact H1]. }
  destruct (_ =? 1); [reflexivity|].
  now rewrite (sextets_of_foreign d2 c H2 Hidx).
Qed.

Lemma foreign_character_rejected_witness :
  base64ToArrayBuffer (js "-__-") = inl InvalidCharacterError.
Proof.
  apply (foreign_character_rejected (js "-__-") 45); try reflexivity.
  - left. reflexivity.
  - discriminate.
Defined.

End TransportFacts.
